(** * Variational language model notebook (Final_notebook.ipynb)

    A shallow embedding of the code cells of the notebook: the Python
    run-time behaviour the cells rely on (exceptions, list and NumPy
    indexing), the PennyLane objects they build (operations, tapes, devices,
    the gradient-descent step), the preprocessing cell, and, for each of the
    two committed copies of the notebook, the set-up, training and
    application cells.

    In the set-up, training and application cells floating-point scalars
    are an abstract type [Scalar] with the two operations the cells
    themselves use ([0] and [+]); the preprocessing cell is over binary64
    floats, the [float64] of its NumPy arrays. *)

From Stdlib Require Import String.
From Stdlib Require Import ZArith List Bool Lia PrimFloat.
Import ListNotations.
Open Scope Z_scope.

Set Implicit Arguments.

(* ===================================================================== *)
(** * Python run time: exceptions and the kernel monad                    *)
(* ===================================================================== *)

(** The exception classes that the cells and the libraries under them can
    raise.  [DeviceError] carries the two fields PennyLane formats into its
    message: the operation name and the device short name.  [WireError] is
    PennyLane's error for a wire label that a device does not have, and
    [OSError] what opening or reading a file raises. *)
Inductive exn : Type :=
| AssertionError
| TypeError
| IndexError
| KeyError
| ValueError
| NameError
| OSError
| WireError
| DeviceError (operation device : string).

Inductive result (A : Type) : Type :=
| Ok (a : A)
| Raise (e : exn).
Arguments Raise {A} e.

Definition result_bind {A B} (r : result A) (k : A -> result B) : result B :=
  match r with
  | Ok a => k a
  | Raise e => Raise e
  end.

(** A statement sequence over a mutable store [W]: an exception stops the
    sequence and leaves the store as it was when the exception was raised
    (there is no handler that could roll it back). *)
Definition M (W A : Type) : Type := W -> W * result A.

Definition ret {W A} (a : A) : M W A := fun w => (w, Ok a).
Definition raise {W A} (e : exn) : M W A := fun w => (w, Raise e).
Definition bind {W A B} (c : M W A) (k : A -> M W B) : M W B :=
  fun w => match c w with
           | (w', Ok a) => k a w'
           | (w', Raise e) => (w', Raise e)
           end.
Definition lift {W A} (r : result A) : M W A := fun w => (w, r).
Definition get {W} : M W W := fun w => (w, Ok w).
Definition modify {W} (f : W -> W) : M W unit := fun w => (f w, Ok tt).

Declare Scope py_scope.
Delimit Scope py_scope with py.
Notation "x <- c ;; k" := (bind c (fun x => k))
  (at level 100, c at next level, right associativity) : py_scope.
Notation "' p <- c ;; k" := (bind c (fun x => match x with p => k end))
  (at level 100, p pattern, c at next level, right associativity) : py_scope.
Notation "c ;;; k" := (bind c (fun _ => k))
  (at level 100, right associativity) : py_scope.
Open Scope py_scope.

(** [for x in l: acc = body(acc, x)] *)
Fixpoint for_each {W A B} (body : B -> A -> M W B) (l : list A) (acc : B)
  : M W B :=
  match l with
  | [] => ret acc
  | x :: rest => acc' <- body acc x ;; for_each body rest acc'
  end.

(** [[f(x) for x in l]] *)
Fixpoint mapM {W A B} (f : A -> M W B) (l : list A) : M W (list B) :=
  match l with
  | [] => ret []
  | x :: rest => y <- f x ;; ys <- mapM f rest ;; ret (y :: ys)
  end.

(** The same comprehension for code that touches no store. *)
Fixpoint map_result {A B} (f : A -> result B) (l : list A) : result (list B) :=
  match l with
  | [] => Ok []
  | x :: rest =>
      result_bind (f x) (fun y =>
      result_bind (map_result f rest) (fun ys => Ok (y :: ys)))
  end.

(** [assert c] *)
Definition assert_ {W} (c : bool) : M W unit :=
  if c then ret tt else raise AssertionError.

(** [enumerate(l)] and [range(n)] *)
Definition enumerate {A} (l : list A) : list (nat * A) :=
  combine (seq 0 (length l)) l.
Definition range (n : nat) : list nat := seq 0 n.

(* ===================================================================== *)
(** * Indexing: NumPy arrays and Python lists                             *)
(* ===================================================================== *)

(** An integer index into an axis of length [n]: [0 <= i < n] counts from
    the front, [-n <= i < 0] from the back, anything else is out of
    bounds. *)
Definition normalize_index (n : nat) (i : Z) : option nat :=
  if (0 <=? i) && (i <? Z.of_nat n) then Some (Z.to_nat i)
  else if (- Z.of_nat n <=? i) && (i <? 0) then Some (Z.to_nat (i + Z.of_nat n))
  else None.

(** [a[i]] along the first axis. *)
Definition getitem {A} (a : list A) (i : Z) : result A :=
  match normalize_index (length a) i with
  | Some k => match nth_error a k with
              | Some x => Ok x
              | None => Raise IndexError
              end
  | None => Raise IndexError
  end.

(** [a[ids]] with an integer sequence [ids] (NumPy "fancy" indexing): the
    rows named by [ids], in order; one bad index fails the whole lookup. *)
Definition take {A} (a : list A) (ids : list Z) : result (list A) :=
  map_result (getitem a) ids.

(** [a[i] = v] along the first axis. *)
Fixpoint replace_nth {A} (k : nat) (v : A) (a : list A) {struct a} : list A :=
  match a, k with
  | [], _ => []
  | _ :: rest, O => v :: rest
  | x :: rest, S k' => x :: replace_nth k' v rest
  end.

Definition setitem {A} (a : list A) (i : Z) (v : A) : result (list A) :=
  match normalize_index (length a) i with
  | Some k => Ok (replace_nth k v a)
  | None => Raise IndexError
  end.

(** [a[i, j] = v] on a two-dimensional array. *)
Definition setitem2 {A} (a : list (list A)) (i j : Z) (v : A)
  : result (list (list A)) :=
  result_bind (getitem a i) (fun row =>
  result_bind (setitem row j v) (fun row' =>
  setitem a i row')).

(** [np.arange(lo, hi)] *)
Definition arange (lo hi : Z) : list Z :=
  map (fun k => lo + Z.of_nat k) (seq 0 (Z.to_nat (hi - lo))).

(** What can stand between the brackets of [l[...]] in the cells: a Python
    integer, a slice [start:stop], or a one-dimensional NumPy integer
    array. *)
Inductive pyindex : Type :=
| IxInt (i : Z)
| IxSlice (start stop : option Z)
| IxArray (a : list Z).

(** What a subscript on a list of integers evaluates to. *)
Inductive pyvalue : Type :=
| VInt (i : Z)
| VList (l : list Z).

(** A slice bound clamped into [0 .. n], negative bounds counted from the
    back. *)
Definition clamp_bound (n : nat) (b : Z) : nat :=
  if b <? 0 then Z.to_nat (Z.max 0 (b + Z.of_nat n))
  else Z.to_nat (Z.min b (Z.of_nat n)).

Definition slice {A} (l : list A) (start stop : option Z) : list A :=
  let n := length l in
  let lo := match start with Some b => clamp_bound n b | None => O end in
  let hi := match stop with Some b => clamp_bound n b | None => n end in
  firstn (hi - lo) (skipn lo l).

(** [l[ix]] for a built-in [list]: [list.__getitem__] accepts integers and
    slices; any other object is converted with [__index__], which a NumPy
    array that is not zero-dimensional refuses with [TypeError] ("only
    integer scalar arrays can be converted to a scalar index"). *)
Definition list_getitem (l : list Z) (ix : pyindex) : result pyvalue :=
  match ix with
  | IxInt i => result_bind (getitem l i) (fun x => Ok (VInt x))
  | IxSlice start stop => Ok (VList (slice l start stop))
  | IxArray _ => Raise TypeError
  end.

(** [iter(v)]: an [int] is not iterable. *)
Definition iterate (v : pyvalue) : result (list Z) :=
  match v with
  | VList l => Ok l
  | VInt _ => Raise TypeError
  end.

(** Look-up in a [dict] kept in insertion order. *)
Fixpoint dict_get {K V} (eqb : K -> K -> bool) (d : list (K * V)) (k : K)
  : result V :=
  match d with
  | [] => Raise KeyError
  | (k', v) :: rest => if eqb k' k then Ok v else dict_get eqb rest k
  end.

(* ===================================================================== *)
(** * Arrays of parameters                                                *)
(* ===================================================================== *)

(** A three-dimensional array, as [np.random.rand(d0, d1, d2)] returns it:
    its shape and its entries. *)
Record Tensor3 (Scalar : Type) : Type := {
  dim0 : nat;
  dim1 : nat;
  dim2 : nat;
  entry : nat -> nat -> nat -> Scalar
}.

Section Slicing.
Context {Scalar : Type}.

(** [p[:, 0, i]]: an index is checked against the shape of its axis. *)
Definition slice_head (p : Tensor3 Scalar) (i : nat) : result (list Scalar) :=
  if (0 <? dim1 p)%nat && (i <? dim2 p)%nat
  then Ok (map (fun q => entry p q 0%nat i) (range (dim0 p)))
  else Raise IndexError.

(** [p[:, 1::, i]]: the slice [1::] of the middle axis never fails. *)
Definition slice_tail (p : Tensor3 Scalar) (i : nat)
  : result (list (list Scalar)) :=
  if (i <? dim2 p)%nat
  then Ok (map (fun q => map (fun j => entry p q j i)
                             (seq 1 (dim1 p - 1)))
               (range (dim0 p)))
  else Raise IndexError.

(** [[(p[:, 0, i], p[:, 1::, i]) for i in range(num_layers)]] *)
Definition layer_params (p : Tensor3 Scalar) (num_layers : nat)
  : result (list (list Scalar * list (list Scalar))) :=
  map_result (fun i => result_bind (slice_head p i) (fun h =>
                       result_bind (slice_tail p i) (fun t =>
                       Ok (h, t))))
             (range num_layers).
End Slicing.

(* ===================================================================== *)
(** * PennyLane: operations, tapes, devices and the optimizer             *)
(* ===================================================================== *)

Section PennyLane.
Context {Scalar : Type}.

(** The operations a quantum function queues.  [QubitStateVector] is the
    state preparation named in the committed error output and [BasisState]
    the other state preparation of PennyLane; every other operation is a
    gate of the device's own set, kept by name. *)
Inductive Operation : Type :=
| QubitStateVector (state : list Scalar) (wires : list Z)
| BasisState (state : list Z) (wires : list Z)
| Unitary (name : string) (params : list Scalar) (wires : list Z).

Definition op_name (op : Operation) : string :=
  match op with
  | QubitStateVector _ _ => "QubitStateVector"
  | BasisState _ _ => "BasisState"
  | Unitary name _ _ => name
  end.

(** [isinstance(operation, (QubitStateVector, BasisState))] *)
Definition is_state_preparation (op : Operation) : bool :=
  match op with
  | QubitStateVector _ _ => true
  | BasisState _ _ => true
  | Unitary _ _ _ => false
  end.

Inductive Observable : Type :=
| PauliZ (wire : Z).

(** What a QNode records when its quantum function runs: the queued
    operations and the observable under [qml.expval]. *)
Record Tape : Type := {
  operations : list Operation;
  expval : Observable
}.

Record Device : Type := {
  short_name : string;
  wires : list Z;
  execute : Tape -> result Scalar
}.

Section DefaultQubit.
(** [np.allclose(np.linalg.norm(state, ord=2), 1.0, atol=tolerance)] *)
Variable is_normalized : list Scalar -> bool.
(** The wire labels of the device. *)
Variable device_wires : list Z.

(** [Device.map_wires]: the labels of an operation are looked up among the
    wires of the device; a label that is not there is a [WireError]. *)
Definition map_wires (ws : list Z) : result unit :=
  if forallb (fun w => existsb (Z.eqb w) device_wires) ws
  then Ok tt
  else Raise WireError.

(** [DefaultQubit._apply_state_vector]: the state must have [2 ** len(wires)]
    amplitudes ("State vector must be of length 2**wires.") and norm one
    ("Sum of amplitudes-squared does not equal one."); both are a
    [ValueError]. *)
Definition apply_state_vector (state : list Scalar) (ws : list Z)
  : result unit :=
  result_bind (map_wires ws) (fun _ =>
  if negb (length state =? 2 ^ length ws)%nat then Raise ValueError
  else if negb (is_normalized state) then Raise ValueError
  else Ok tt).

(** [DefaultQubit._apply_basis_state]: zeros and ones, one per wire. *)
Definition apply_basis_state (state : list Z) (ws : list Z) : result unit :=
  result_bind (map_wires ws) (fun _ =>
  if negb (forallb (fun b => (b =? 0) || (b =? 1)) state) then Raise ValueError
  else if negb (length state =? length ws)%nat then Raise ValueError
  else Ok tt).

(** What applying one operation to the state of the device can raise. *)
Definition apply_operation (op : Operation) : result unit :=
  match op with
  | QubitStateVector state ws => apply_state_vector state ws
  | BasisState state ws => apply_basis_state state ws
  | Unitary _ _ ws => map_wires ws
  end.

(** [DefaultQubit.apply], as the committed traceback quotes it
    (default_qubit.py, lines 178-180): the operations are walked in order
    ([for i, operation in enumerate(operations)]); a state preparation
    that is not the first operation raises [DeviceError("Operation {} cannot
    be used after other Operations have already been applied on a {}
    device.")]; any other operation is applied to the state, the
    operations before it having been applied already. *)
Fixpoint apply (dev_name : string) (i : nat) (ops : list Operation)
  : result unit :=
  match ops with
  | [] => Ok tt
  | op :: rest =>
      if (0 <? i)%nat && is_state_preparation op
      then Raise (DeviceError (op_name op) dev_name)
      else result_bind (apply_operation op)
                       (fun _ => apply dev_name (S i) rest)
  end.
End DefaultQubit.

(** [qml.device("default.qubit", wires=n_wires)] once the QNode has
    swapped in its autograd variant (the short name of the committed
    message): [QubitDevice.execute] applies the operations of the tape and
    then takes the expectation value of its observable.  [simulate] is the
    state-vector simulation of a tape that [apply] accepts. *)
Definition default_qubit (is_normalized : list Scalar -> bool)
  (simulate : Tape -> Scalar) (n_wires : nat) : Device :=
  let device_wires := map Z.of_nat (range n_wires) in
  {| short_name := "default.qubit.autograd";
     wires := device_wires;
     execute := fun tape =>
       result_bind (apply is_normalized device_wires
                          "default.qubit.autograd" 0 (operations tape))
                   (fun _ =>
       result_bind (match expval tape with
                    | PauliZ wire => map_wires device_wires [wire]
                    end)
                   (fun _ => Ok (simulate tape))) |}.
End PennyLane.

Arguments Operation : clear implicits.
Arguments Tape : clear implicits.
Arguments Device : clear implicits.

(** The notebook kernel: the global [parameters] (unbound until the
    training cell runs), the optimizer object [opt], and two histories that
    the cells do not keep themselves: the tapes handed to a device, and the
    index batches whose optimizer step has returned. *)
Record World (Scalar OptState : Type) : Type := {
  parameters : option (Tensor3 Scalar);
  opt : OptState;
  executed : list (Tape Scalar);
  completed : list (list Z)
}.

Section Kernel.
Context {Scalar OptState : Type}.

Definition set_parameters (p : Tensor3 Scalar) : M (World Scalar OptState) unit :=
  modify (fun w => {| parameters := Some p; opt := opt w;
                      executed := executed w; completed := completed w |}).

Definition set_opt (o : OptState) : M (World Scalar OptState) unit :=
  modify (fun w => {| parameters := parameters w; opt := o;
                      executed := executed w; completed := completed w |}).

Definition log_completed (batch : list Z) : M (World Scalar OptState) unit :=
  modify (fun w => {| parameters := parameters w; opt := opt w;
                      executed := executed w;
                      completed := completed w ++ [batch] |}).

(** Reading the global name [parameters]. *)
Definition read_parameters : M (World Scalar OptState) (Tensor3 Scalar) :=
  fun w => match parameters w with
           | Some p => (w, Ok p)
           | None => (w, Raise NameError)
           end.

(** The kernel once [tape] has been handed to a device. *)
Definition submitted (tape : Tape Scalar) (w : World Scalar OptState)
  : World Scalar OptState :=
  {| parameters := parameters w; opt := opt w;
     executed := executed w ++ [tape]; completed := completed w |}.

(** Calling a QNode: the recorded tape is handed to the device the QNode
    is bound to, and what the device returns or raises is the outcome of
    the call. *)
Definition qnode_execute (dev : Device Scalar) (tape : Tape Scalar)
  : M (World Scalar OptState) Scalar :=
  fun w => (submitted tape w, execute dev tape).

(** A library routine that can run tapes but has no access to the
    notebook's globals. *)
Definition on_device {A}
  (f : list (Tape Scalar) -> list (Tape Scalar) * result A)
  : M (World Scalar OptState) A :=
  fun w => let (log, r) := f (executed w) in
           ({| parameters := parameters w; opt := opt w;
               executed := log; completed := completed w |}, r).
End Kernel.

(** ** What the cells import *)

(** [config.py] (not part of the committed notebook): the three constants
    the first cell reads. *)
Record Config : Type := {
  NUM_WORDS : nat;
  QUBITS_PER_WORDS : nat;
  NUM_LAYERS : nat
}.

(** [utils.py] (not part of the committed notebook): the two quantum
    functions; each queues operations, or raises. *)
Record Utils (Scalar : Type) : Type := {
  encode_words : list (list Scalar) -> list Z -> result (list (Operation Scalar));
  circuit_final :
    list (list Scalar * list (list Scalar)) -> list Z -> nat -> Z ->
    result (list (Operation Scalar))
}.

(** The external libraries: float arithmetic, NumPy's random generator and
    [argsort], the norm test and the simulation of the local device, the
    remote device, and the Adam optimizer with autograd's backward pass. *)
Record Library (Scalar OptState Grad : Type) : Type := {
  zero : Scalar;
  add : Scalar -> Scalar -> Scalar;
  rand : nat -> nat -> nat -> nat -> nat -> nat -> Scalar;
  randint : Z -> nat -> list Z;
  argsort : list Scalar -> list Z;
  is_normalized : list Scalar -> bool;
  simulate : Tape Scalar -> Scalar;
  braket_execute : Tape Scalar -> result Scalar;
  AdamOptimizer : OptState;
  backward :
    Tensor3 Scalar -> Scalar ->
    list (Tape Scalar) -> list (Tape Scalar) * result Grad;
  apply_grad : OptState -> Grad -> Tensor3 Scalar -> OptState * Tensor3 Scalar
}.

(** The globals the preprocessing cell leaves behind. *)
Record Globals (Scalar : Type) : Type := {
  embeddings_reduced_norm : list (list Scalar);
  sentences_truncated : list (list Z);
  missing_word : list Z;
  all_indices : list (list Z);
  vocab : list (string * Z);
  id_to_word : list (Z * string);
  word_indices : list Z
}.

Section Optimizer.
Context {Scalar OptState Grad : Type}.
Variable lib : Library Scalar OptState Grad.

(** [np.random.rand(d0, d1, d2)] *)
Definition np_random_rand (d0 d1 d2 : nat) : Tensor3 Scalar :=
  {| dim0 := d0; dim1 := d1; dim2 := d2; entry := rand lib d0 d1 d2 |}.

(** [np.random.randint(high, size=n)]: an empty range is refused. *)
Definition np_random_randint (high : Z) (n : nat) : result (list Z) :=
  if 0 <? high then Ok (randint lib high n) else Raise ValueError.

(** [opt.step(objective_fn, x)], following the frames of the committed
    traceback (gradient_descent.py, lines 98-99 and 127; autograd's
    [trace]): the objective is first run on the current arguments (the
    forward pass), then differentiated, then [apply_grad] produces the
    new arguments and the optimizer's new moments. *)
Definition step (objective_fn : Tensor3 Scalar -> M (World Scalar OptState) Scalar)
  (x : Tensor3 Scalar) : M (World Scalar OptState) (Tensor3 Scalar) :=
  forward <- objective_fn x ;;
  gr <- on_device (backward lib x forward) ;;
  w <- get ;;
  let (o', new_args) := apply_grad lib (opt w) gr x in
  set_opt o' ;;;
  ret new_args.
End Optimizer.

(* ===================================================================== *)
(** * First copy of the notebook: the QNode is bound to [dev_local]       *)
(* ===================================================================== *)

Module Copy1.
Section Cells.
Context {Scalar OptState Grad : Type}.
Variable config : Config.
Variable utils : Utils Scalar.
Variable lib : Library Scalar OptState Grad.
Variable g : Globals Scalar.

(** *** Imports cell *)
Definition num_words : nat := NUM_WORDS config.
Definition qbits_per_word : nat := QUBITS_PER_WORDS config.
Definition num_layers : nat := NUM_LAYERS config.

(** *** Set-up cell *)
Definition max_length : nat := num_words.
Definition n_wires : nat := (qbits_per_word * (max_length + 1) + 1)%nat.

Definition dev_local : Device Scalar :=
  default_qubit (is_normalized lib) (simulate lib) n_wires.

Definition dev : Device Scalar := dev_local.

Definition compute_overlap_words (parameters : Tensor3 Scalar)
  (embeddings : list (list Scalar)) (indices : list Z) (target_word : Z)
  : M (World Scalar OptState) Scalar :=
  let wires := wires dev in
  encoded <- lift (encode_words utils embeddings indices) ;;
  params <- lift (layer_params parameters num_layers) ;;
  ansatz <- lift (circuit_final utils params wires num_layers target_word) ;;
  last <- lift (getitem wires (-1)) ;;
  qnode_execute dev {| operations := encoded ++ ansatz;
                       expval := PauliZ last |}.

Definition cost (parameters : Tensor3 Scalar) (sentences : list (list Z))
  (missing_words : list Z) : M (World Scalar OptState) Scalar :=
  for_each
    (fun cost '(i, sentence) =>
       embeddings <- lift (take (embeddings_reduced_norm g) sentence) ;;
       indices <- lift (getitem (all_indices g) (Z.of_nat i)) ;;
       m_w <- lift (getitem missing_words (Z.of_nat i)) ;;
       overlap <- compute_overlap_words parameters embeddings indices m_w ;;
       ret (add lib cost overlap))
    (enumerate sentences) (zero lib).

(** *** Training cell *)
Definition batch_size : nat := 10.
Definition epochs : nat := 2.
Definition N_batches : nat := (length (sentences_truncated g) / batch_size)%nat.

Definition batch_of (i : nat) : list Z :=
  arange (Z.of_nat (i * batch_size)) (Z.of_nat ((i + 1) * batch_size)).

Definition cost_batch (batch : list Z) (parameters : Tensor3 Scalar)
  : M (World Scalar OptState) Scalar :=
  sentences <- lift (take (sentences_truncated g) batch) ;;
  missing_words <- lift (take (missing_word g) batch) ;;
  cost parameters sentences missing_words.

(** The body of the inner loop (the two [time()] readings and the print
    of their difference leave no trace in the kernel and are left out). *)
Definition train_batch (i : nat) : M (World Scalar OptState) unit :=
  let batch := batch_of i in
  current <- read_parameters ;;
  updated <- step lib (cost_batch batch) current ;;
  set_parameters updated ;;;
  log_completed batch.

Definition training_loop : M (World Scalar OptState) unit :=
  for_each (fun _ epoch =>
              for_each (fun _ i => train_batch i) (range N_batches) tt)
           (range epochs) tt.

Definition training_cell : M (World Scalar OptState) unit :=
  set_parameters (np_random_rand lib qbits_per_word
                                 ((num_words + 1) / 2 + 1) num_layers) ;;;
  set_opt (AdamOptimizer lib) ;;;
  training_loop.

(** *** Application cell

    The candidate loop is [for i, index in enumerate(...)]; its counter
    [i] is never read, so the loop runs over the candidates alone. *)
Definition get_most_probable_word (sentence : list Z) (position : Z)
  (look_in : option pyindex) : M (World Scalar OptState) (list Scalar) :=
  assert_ (position <? Z.of_nat num_words) ;;;
  let look_in :=
    match look_in with
    | None => IxArray (arange 0 (Z.of_nat (length (word_indices g))))
    | Some ix => ix
    end in
  let indices :=
    filter (fun i => negb (i =? position)) (map Z.of_nat (range num_words))
    ++ [Z.of_nat num_words] in
  embeddings_input <- lift (take (embeddings_reduced_norm g) sentence) ;;
  candidates <- lift (result_bind (list_getitem (word_indices g) look_in)
                                  iterate) ;;
  for_each
    (fun probas index =>
       extra <- lift (getitem (embeddings_reduced_norm g) index) ;;
       let embeddings := embeddings_input ++ [extra] in
       parameters <- read_parameters ;;
       overlap <- compute_overlap_words parameters embeddings indices position ;;
       ret (probas ++ [overlap]))
    candidates [].

(** ['january [mask] within million march 1986 spacecraft'.split(' ')] *)
Definition list_words : list string :=
  ["january"; "[mask]"; "within"; "million"; "march"; "1986";
   "spacecraft"]%string.

(** The statements after the function definition; the value is the list
    of words that the last [print] joins. *)
Definition query_cell : M (World Scalar OptState) (list string) :=
  ' (list_index, missing_index) <-
    for_each (fun '(list_index, missing_index) '(i, word) =>
                if String.eqb word "[mask]"
                then ret (list_index, i)
                else id <- lift (dict_get String.eqb (vocab g) word) ;;
                     ret (list_index ++ [id], missing_index))
             (enumerate list_words) ([], O) ;;
  look_in <- lift (np_random_randint lib
                     (Z.of_nat (length (word_indices g))) 10) ;;
  p <- get_most_probable_word list_index 4 (Some (IxArray look_in)) ;;
  lift (map_result
          (fun i => result_bind (getitem look_in i)
                                (dict_get Z.eqb (id_to_word g)))
          (firstn 5 (rev (argsort lib p)))).
End Cells.
End Copy1.

(* ===================================================================== *)
(** * Second copy of the notebook: the QNode is bound to [dev_remote]     *)
(* ===================================================================== *)

Module Copy2.
Section Cells.
Context {Scalar OptState Grad : Type}.
Variable config : Config.
Variable utils : Utils Scalar.
Variable lib : Library Scalar OptState Grad.
Variable g : Globals Scalar.

(** *** Imports cell *)
Definition num_words : nat := NUM_WORDS config.
Definition qbits_per_word : nat := QUBITS_PER_WORDS config.
Definition num_layers : nat := NUM_LAYERS config.

(** *** Set-up cell *)
Definition max_length : nat := num_words.
Definition n_wires : nat := (qbits_per_word * (max_length + 1) + 1)%nat.

(** [qml.device("braket.aws.qubit", device_arn=..., wires=n_wires, ...)]:
    the managed SV1 simulator, known here only by what it returns. *)
Definition dev_remote : Device Scalar :=
  {| short_name := "braket.aws.qubit";
     wires := map Z.of_nat (range n_wires);
     execute := braket_execute lib |}.

Definition dev_local : Device Scalar :=
  default_qubit (is_normalized lib) (simulate lib) n_wires.

Definition dev : Device Scalar := dev_remote.

Definition compute_overlap_words (parameters : Tensor3 Scalar)
  (embeddings : list (list Scalar)) (indices : list Z) (target_word : Z)
  : M (World Scalar OptState) Scalar :=
  let wires := wires dev in
  encoded <- lift (encode_words utils embeddings indices) ;;
  params <- lift (layer_params parameters num_layers) ;;
  ansatz <- lift (circuit_final utils params wires num_layers target_word) ;;
  last <- lift (getitem wires (-1)) ;;
  qnode_execute dev {| operations := encoded ++ ansatz;
                       expval := PauliZ last |}.

Definition cost (parameters : Tensor3 Scalar) (sentences : list (list Z))
  (missing_words : list Z) : M (World Scalar OptState) Scalar :=
  for_each
    (fun cost '(i, sentence) =>
       embeddings <- lift (take (embeddings_reduced_norm g) sentence) ;;
       indices <- lift (getitem (all_indices g) (Z.of_nat i)) ;;
       m_w <- lift (getitem missing_words (Z.of_nat i)) ;;
       overlap <- compute_overlap_words parameters embeddings indices m_w ;;
       ret (add lib cost overlap))
    (enumerate sentences) (zero lib).

(** *** Training cell *)
Definition batch_size : nat := 10.
Definition epochs : nat := 2.
Definition N_batches : nat := (length (sentences_truncated g) / batch_size)%nat.

Definition batch_of (i : nat) : list Z :=
  arange (Z.of_nat (i * batch_size)) (Z.of_nat ((i + 1) * batch_size)).

Definition cost_batch (batch : list Z) (parameters : Tensor3 Scalar)
  : M (World Scalar OptState) Scalar :=
  sentences <- lift (take (sentences_truncated g) batch) ;;
  missing_words <- lift (take (missing_word g) batch) ;;
  cost parameters sentences missing_words.

(** The body of the inner loop (the two [time()] readings and the print
    of their difference leave no trace in the kernel and are left out). *)
Definition train_batch (i : nat) : M (World Scalar OptState) unit :=
  let batch := batch_of i in
  current <- read_parameters ;;
  updated <- step lib (cost_batch batch) current ;;
  set_parameters updated ;;;
  log_completed batch.

Definition training_loop : M (World Scalar OptState) unit :=
  for_each (fun _ epoch =>
              for_each (fun _ i => train_batch i) (range N_batches) tt)
           (range epochs) tt.

Definition training_cell : M (World Scalar OptState) unit :=
  set_parameters (np_random_rand lib qbits_per_word
                                 ((num_words + 1) / 2 + 1) num_layers) ;;;
  set_opt (AdamOptimizer lib) ;;;
  training_loop.

(** *** Application cell

    The candidate loop is [for i, index in enumerate(...)]; its counter
    [i] is never read, so the loop runs over the candidates alone. *)
Definition get_most_probable_word (sentence : list Z) (position : Z)
  (look_in : option pyindex) : M (World Scalar OptState) (list Scalar) :=
  assert_ (position <? Z.of_nat num_words) ;;;
  let look_in :=
    match look_in with
    | None => IxArray (arange 0 (Z.of_nat (length (word_indices g))))
    | Some ix => ix
    end in
  let indices :=
    filter (fun i => negb (i =? position)) (map Z.of_nat (range num_words))
    ++ [Z.of_nat num_words] in
  embeddings_input <- lift (take (embeddings_reduced_norm g) sentence) ;;
  candidates <- lift (result_bind (list_getitem (word_indices g) look_in)
                                  iterate) ;;
  for_each
    (fun probas index =>
       extra <- lift (getitem (embeddings_reduced_norm g) index) ;;
       let embeddings := embeddings_input ++ [extra] in
       parameters <- read_parameters ;;
       overlap <- compute_overlap_words parameters embeddings indices position ;;
       ret (probas ++ [overlap]))
    candidates [].

(** ['january [mask] within million march 1986 spacecraft'.split(' ')] *)
Definition list_words : list string :=
  ["january"; "[mask]"; "within"; "million"; "march"; "1986";
   "spacecraft"]%string.

(** The statements after the function definition; the value is the list
    of words that the last [print] joins. *)
Definition query_cell : M (World Scalar OptState) (list string) :=
  ' (list_index, missing_index) <-
    for_each (fun '(list_index, missing_index) '(i, word) =>
                if String.eqb word "[mask]"
                then ret (list_index, i)
                else id <- lift (dict_get String.eqb (vocab g) word) ;;
                     ret (list_index ++ [id], missing_index))
             (enumerate list_words) ([], O) ;;
  look_in <- lift (np_random_randint lib
                     (Z.of_nat (length (word_indices g))) 10) ;;
  p <- get_most_probable_word list_index 4 (Some (IxArray look_in)) ;;
  lift (map_result
          (fun i => result_bind (getitem look_in i)
                                (dict_get Z.eqb (id_to_word g)))
          (firstn 5 (rev (argsort lib p)))).
End Cells.
End Copy2.

(* ===================================================================== *)
(** * Preprocessing cell (the same in both copies)                        *)
(* ===================================================================== *)

Module Preprocessing.

(** [for x in l: acc = body(acc, x)] for code that touches no store. *)
Fixpoint fold_result {A B} (body : B -> A -> result B) (l : list A) (acc : B)
  : result B :=
  match l with
  | [] => Ok acc
  | x :: rest => result_bind (body acc x) (fun acc' => fold_result body rest acc')
  end.

(** [a[mask]] with a boolean [mask] along the first axis. *)
Fixpoint select {A} (mask : list bool) (a : list A) : list A :=
  match mask, a with
  | true :: mask', x :: a' => x :: select mask' a'
  | false :: mask', _ :: a' => select mask' a'
  | _, _ => []
  end.

(** [a[mask] = b] on a two-dimensional array with [width] columns, for a
    value [b] with one row per selected row, as the two assignments of the
    cell have it (scikit-learn's [fit_transform] returns one row of
    [n_components] entries per sample, and the quotient of two such arrays
    has their shape): the rows of [b] replace, in order, the rows of [a]
    that [mask] selects.  A mask of the wrong length is an [IndexError]; a
    [b] of another shape is a [ValueError] (NumPy would first try to
    broadcast a [b] with a single row or single-entry rows; no statement of
    the cell assigns one). *)
Fixpoint assign_masked {A} (width : nat) (mask : list bool)
  (a b : list (list A)) : result (list (list A)) :=
  match mask, a with
  | [], [] => match b with
              | [] => Ok []
              | _ :: _ => Raise ValueError
              end
  | true :: mask', _ :: a' =>
      match b with
      | row :: b' =>
          if (length row =? width)%nat
          then result_bind (assign_masked width mask' a' b')
                           (fun rest => Ok (row :: rest))
          else Raise ValueError
      | [] => Raise ValueError
      end
  | false :: mask', row :: a' =>
      result_bind (assign_masked width mask' a' b)
                  (fun rest => Ok (row :: rest))
  | _, _ => Raise IndexError
  end.

(** [d[k] = v] on a [dict] kept in insertion order. *)
Fixpoint dict_set {K V} (eqb : K -> K -> bool) (d : list (K * V)) (k : K) (v : V)
  : list (K * V) :=
  match d with
  | [] => [(k, v)]
  | (k', v') :: rest =>
      if eqb k' k then (k', v) :: rest else (k', v') :: dict_set eqb rest k v
  end.

(** What reading the four files of the cell gives, or raises:
    [np.load("newsgroup/embeddings.npy")],
    [np.load("newsgroup/sentences.npy").astype(int)],
    [np.load('newsgroup/labels.npy')] and [pickle.load] on the opened
    ['newsgroup/vocab.p']. *)
Record Files : Type := {
  embeddings_npy : result (list (list float));
  sentences_npy : result (list (list Z));
  labels_npy : result (list Z);
  vocab_p : result (list (string * Z))
}.

Section Cell.
Variable config : Config.
(** [PCA(n).fit_transform(X)] of scikit-learn. *)
Variable pca_fit_transform :
  nat -> list (list float) -> result (list (list float)).
(** [np.linalg.norm(a, axis=1)] on one row of [a], and [np.linalg.norm(v)]
    on a vector [v]: NumPy's two float64 routines (a reduction of the
    squares along the axis for the first, a dot product for the second,
    each followed by a square root). *)
Variable norm_axis1 : list float -> float.
Variable norm : list float -> float.
(** [np.random.randint(low, high, size=n)] after [np.random.seed(143)]. *)
Variable randint : Z -> Z -> nat -> list Z.

Definition num_words : nat := NUM_WORDS config.
Definition qbits_per_word : nat := QUBITS_PER_WORDS config.

Definition n_dim : nat := (2 ^ qbits_per_word)%nat.
Definition max_length : nat := num_words.

(** [x > 0] on a float: false for zero, for a negative number and for
    NaN. *)
Definition positive (x : float) : bool := (0 <? x)%float.

(** [np.zeros((rows, cols))] *)
Definition zeros (rows cols : nat) : list (list float) :=
  repeat (repeat 0%float cols) rows.

(** [np.repeat(a, n, axis=1)] *)
Definition repeat_axis1 (a : list (list float)) (n : nat) : list (list float) :=
  map (fun row => flat_map (fun x => repeat x n) row) a.

(** Element-wise [a / b] of two arrays of one shape (float division: a
    zero divisor gives an infinity or NaN, not an exception). *)
Definition divide (a b : list (list float)) : list (list float) :=
  map (fun '(ra, rb) => map (fun '(x, y) => (x / y)%float) (combine ra rb))
      (combine a b).

(** [norms > 0], the mask used four times in the cell. *)
Definition norms_positive (embeddings : list (list float)) : list bool :=
  map (fun row => positive (norm_axis1 row)) embeddings.

Definition embeddings_reduced (embeddings : list (list float))
  : result (list (list float)) :=
  let mask := norms_positive embeddings in
  result_bind (pca_fit_transform n_dim (select mask embeddings))
    (fun reduced =>
       assign_masked n_dim mask (zeros (length embeddings) n_dim) reduced).

Definition embeddings_reduced_norm (embeddings : list (list float))
  : result (list (list float)) :=
  let mask := norms_positive embeddings in
  result_bind (embeddings_reduced embeddings) (fun reduced =>
    let norms_reduced := map (fun row => [norm_axis1 row]) reduced in
    assign_masked n_dim mask
      (zeros (length reduced) n_dim)
      (divide (select mask reduced)
              (repeat_axis1 (select mask norms_reduced) n_dim))).

(** [np.random.randint(0, num_words, size=len(sentences))]: for a size of
    zero NumPy returns the empty array before it looks at the bounds;
    otherwise it refuses an empty range. *)
Definition missing_word (sentences : list (list Z)) : result (list Z) :=
  if (length sentences =? 0)%nat then Ok []
  else if 0 <? Z.of_nat num_words
  then Ok (randint 0 (Z.of_nat num_words) (length sentences))
  else Raise ValueError.

(** [all_indices], first the repeated [arange], then the loop that marks
    the masked position of every sentence. *)
Definition all_indices (sentences : list (list Z)) (missing_word : list Z)
  : result (list (list Z)) :=
  fold_result
    (fun all_indices i =>
       result_bind (getitem missing_word (Z.of_nat i)) (fun m =>
       setitem2 all_indices (Z.of_nat i) m (Z.of_nat max_length)))
    (range (length sentences))
    (repeat (arange 0 (Z.of_nat max_length)) (length sentences)).

(** [{value: key for key, value in vocab.items() if norm(...) > 0}] *)
Definition id_to_word (reduced_norm : list (list float))
  (vocab : list (string * Z)) : result (list (Z * string)) :=
  fold_result
    (fun d '(key, value) =>
       result_bind (getitem reduced_norm value) (fun row =>
       if positive (norm row) then Ok (dict_set Z.eqb d value key) else Ok d))
    vocab [].

(** The statements of the cell on the contents of the three files it
    uses, in the order in which they can raise. *)
Definition preprocessing_cell (embeddings : list (list float))
  (sentences : list (list Z)) (vocab : list (string * Z))
  : result (Globals float) :=
  result_bind (missing_word sentences) (fun mw =>
  result_bind (embeddings_reduced_norm embeddings) (fun ern =>
  result_bind (all_indices sentences mw) (fun ai =>
  result_bind (id_to_word ern vocab) (fun itw =>
  Ok (Build_Globals ern (map (firstn max_length) sentences) mw ai vocab
                    itw (map fst itw)))))).

(** The whole cell, statement by statement: the three arrays are loaded
    first, the vocabulary only after [all_indices] has been filled. *)
Definition run_cell (files : Files) : result (Globals float) :=
  result_bind (embeddings_npy files) (fun embeddings =>
  result_bind (sentences_npy files) (fun sentences =>
  result_bind (labels_npy files) (fun labels =>
  result_bind (missing_word sentences) (fun mw =>
  result_bind (embeddings_reduced_norm embeddings) (fun ern =>
  result_bind (all_indices sentences mw) (fun ai =>
  result_bind (vocab_p files) (fun vocab =>
  result_bind (id_to_word ern vocab) (fun itw =>
  Ok (Build_Globals ern (map (firstn max_length) sentences) mw ai vocab
                    itw (map fst itw)))))))))).
End Cell.
End Preprocessing.

(* ===================================================================== *)
(** * Specification-side definitions                                      *)
(* ===================================================================== *)

(** "The sum, over the sentences in order": what [cost = 0] followed by
    one [cost += t] per term adds up to. *)
Definition sum_in_order {Scalar} (zero : Scalar) (add : Scalar -> Scalar -> Scalar)
  (terms : list Scalar) : Scalar :=
  fold_left add terms zero.

(** The spec-modelled quantum function [encode_words]; see below. *)
Section EncodeWords.
Context {Scalar : Type}.
Variable qbits_per_word : nat.

(** The wires of the [index]-th word register. *)
Definition register (index : Z) : list Z :=
  arange (index * Z.of_nat qbits_per_word)
         ((index + 1) * Z.of_nat qbits_per_word).

(** Modelled from the spec: [encode_words] of utils.py, which is not part
    of the committed notebook.  The spec has the notebook encode "each
    sentence's words as quantum amplitude-encoded registers"; the
    committed error output names the operation that does it,
    [QubitStateVector].  So every word (a row of [embeddings]) is
    prepared by one [QubitStateVector] on the register that [indices]
    assigns to it. *)
Definition encode_words_model (embeddings : list (list Scalar))
  (indices : list Z) : result (list (Operation Scalar)) :=
  Ok (map (fun '(word, index) => QubitStateVector word (register index))
          (combine embeddings indices)).
End EncodeWords.

(** The term that one sentence contributes to the cost of the first copy:
    [compute_overlap_words] applied to the parameters, the embeddings of the
    sentence's word ids, the index row [all_indices[i]] and the sentence's
    missing-word position. *)
Definition sentence_overlap {Scalar OptState Grad : Type}
  (config : Config) (utils : Utils Scalar)
  (lib : Library Scalar OptState Grad) (g : Globals Scalar)
  (parameters : Tensor3 Scalar) (missing_words : list Z)
  (item : nat * list Z) : M (World Scalar OptState) Scalar :=
  let (i, sentence) := item in
  embeddings <- lift (take (embeddings_reduced_norm g) sentence) ;;
  indices <- lift (getitem (all_indices g) (Z.of_nat i)) ;;
  m_w <- lift (getitem missing_words (Z.of_nat i)) ;;
  Copy1.compute_overlap_words config utils lib parameters embeddings indices m_w.

(** The index list that [get_most_probable_word] builds: every position
    but the masked one, then the extra register. *)
Definition query_indices (num_words : nat) (position : Z) : list Z :=
  filter (fun i => negb (i =? position)) (map Z.of_nat (range num_words))
  ++ [Z.of_nat num_words].

(** One round of the candidate loop of the first copy: the probability of
    the candidate [index], appended to [probas]. *)
Definition candidate_round {Scalar OptState Grad : Type}
  (config : Config) (utils : Utils Scalar)
  (lib : Library Scalar OptState Grad) (g : Globals Scalar)
  (embeddings_input : list (list Scalar)) (position : Z)
  (probas : list Scalar) (index : Z) : M (World Scalar OptState) (list Scalar) :=
  extra <- lift (getitem (embeddings_reduced_norm g) index) ;;
  parameters <- read_parameters ;;
  overlap <- Copy1.compute_overlap_words config utils lib parameters
               (embeddings_input ++ [extra])
               (query_indices (Copy1.num_words config) position) position ;;
  ret (probas ++ [overlap]).

(** The candidates that the loop runs through: [word_indices[look_in]],
    with [look_in] replaced by its default when it is [None]. *)
Definition candidates {Scalar : Type} (g : Globals Scalar)
  (look_in : option pyindex) : result (list Z) :=
  result_bind
    (list_getitem (word_indices g)
       match look_in with
       | None => IxArray (arange 0 (Z.of_nat (length (word_indices g))))
       | Some ix => ix
       end)
    iterate.

(** How many rows a boolean mask selects before row [i]: the place of
    row [i] in [a[mask]]. *)
Fixpoint selected_before (mask : list bool) (i : nat) : nat :=
  match mask, i with
  | b :: mask', S i' => ((if b then 1 else 0) + selected_before mask' i')%nat
  | _, _ => O
  end.

(** The row of [all_indices] for a sentence whose missing word is at
    position [m]: [0, 1, ..., max_length - 1] with [max_length] written at
    position [m]. *)
Definition marked_row (max_length : nat) (m : Z) : list Z :=
  replace_nth (Z.to_nat m) (Z.of_nat max_length) (arange 0 (Z.of_nat max_length)).

(** A computation that never raises [AssertionError]. *)
Definition no_assertion {W A : Type} (c : M W A) : Prop :=
  forall w e, snd (c w) = Raise e -> e <> AssertionError.


(** The kernel after the two assignments that open the training cell. *)
Definition training_start {Scalar OptState Grad : Type}
  (config : Config) (lib : Library Scalar OptState Grad)
  (w : World Scalar OptState) : World Scalar OptState :=
  {| parameters :=
       Some (np_random_rand lib (Copy1.qbits_per_word config)
               ((Copy1.num_words config + 1) / 2 + 1) (Copy1.num_layers config));
     opt := AdamOptimizer lib;
     executed := executed w;
     completed := completed w |}.



(** A computation that leaves the binding of [parameters] and the history
    of completed batches alone. *)
Definition keeps_globals {Scalar OptState A : Type}
  (c : M (World Scalar OptState) A) : Prop :=
  forall w, parameters (fst (c w)) = parameters w /\
            completed (fst (c w)) = completed w.

(** A computation that leaves the optimizer object alone. *)
Definition keeps_optimizer {Scalar OptState A : Type}
  (c : M (World Scalar OptState) A) : Prop :=
  forall w, opt (fst (c w)) = opt w.

(** ** A small concrete notebook

    Two words per sentence, one qubit per word, one layer, integer
    scalars: small enough to run every cell by evaluation. *)
Module Demo.
Definition config : Config :=
  {| NUM_WORDS := 2; QUBITS_PER_WORDS := 1; NUM_LAYERS := 1 |}.

(** An ansatz of one rotation on the last wire. *)
Definition utils : Utils Z :=
  {| encode_words := encode_words_model 1;
     circuit_final := fun _ wires _ _ => Ok [Unitary "RY" [1] (firstn 1 (rev wires))] |}.

(** A norm test that is exact on integers, a "simulator" that returns the
    number of operations it was given, and an optimizer that adds the
    gradient (always 1) to every entry. *)
Definition lib : Library Z unit Z :=
  {| zero := 0;
     add := Z.add;
     rand := fun _ _ _ _ _ _ => 1;
     randint := fun high n => repeat 0 n;
     argsort := fun p => map Z.of_nat (range (length p));
     is_normalized := fun state =>
       fold_right (fun x acc => x * x + acc) 0 state =? 1;
     simulate := fun tape => Z.of_nat (length (operations tape));
     braket_execute := fun tape => Ok (Z.of_nat (length (operations tape)));
     AdamOptimizer := tt;
     backward := fun _ _ log => (log, Ok 1);
     apply_grad := fun o gr x =>
       (o, {| dim0 := dim0 x; dim1 := dim1 x; dim2 := dim2 x;
              entry := fun a b c => entry x a b c + gr |}) |}.

Definition sentence_ids : list (list Z) :=
  map (fun k => [Z.of_nat (k mod 3); Z.of_nat ((k + 1) mod 3)]) (range 23).

Definition globals : Globals Z :=
  {| embeddings_reduced_norm := [[1; 0]; [0; 1]; [0; 0]];
     sentences_truncated := sentence_ids;
     missing_word := map (fun k => Z.of_nat (k mod 2)) (range 23);
     all_indices := map (fun k => if (k mod 2 =? 0)%nat then [2; 1] else [0; 2])
                        (range 23);
     vocab := [("january", 0); ("within", 1); ("million", 0); ("march", 1);
               ("1986", 0); ("spacecraft", 1)]%string;
     id_to_word := [(0, "january"); (1, "within")]%string;
     word_indices := [0; 1] |}.

Definition world : World Z unit :=
  {| parameters := None; opt := tt; executed := []; completed := [] |}.

(** The same notebook with seven words per sentence, the length of the
    sentence that the application cell queries. *)
Definition config7 : Config :=
  {| NUM_WORDS := 7; QUBITS_PER_WORDS := 1; NUM_LAYERS := 1 |}.

(** One word per sentence: the only sentence length whose encoding the
    local simulator accepts. *)
Definition config1 : Config :=
  {| NUM_WORDS := 1; QUBITS_PER_WORDS := 1; NUM_LAYERS := 1 |}.

Definition globals1 : Globals Z :=
  {| embeddings_reduced_norm := [[1; 0]; [0; 1]; [0; 0]];
     sentences_truncated := map (fun k => [Z.of_nat (k mod 3)]) (range 23);
     missing_word := repeat 0 23;
     all_indices := repeat [1] 23;
     vocab := vocab globals;
     id_to_word := id_to_word globals;
     word_indices := [0; 1] |}.

(** A library whose remote device answers as the local one does. *)
Definition mirror_lib : Library Z unit Z :=
  {| zero := zero lib;
     add := add lib;
     rand := rand lib;
     randint := randint lib;
     argsort := argsort lib;
     is_normalized := is_normalized lib;
     simulate := simulate lib;
     braket_execute :=
       execute (default_qubit (is_normalized lib) (simulate lib)
                              (Copy1.n_wires config));
     AdamOptimizer := AdamOptimizer lib;
     backward := backward lib;
     apply_grad := apply_grad lib |}.

(** The Euclidean norm as NumPy computes it on a row of fewer than eight
    entries: the squares are added up from left to right, starting from
    zero, and the square root of the sum is taken. *)
Definition norm64 (v : list float) : float :=
  sqrt (fold_left (fun acc x => acc + x * x) v 0)%float.

(** Three embeddings, one of them zero, with a stand-in for PCA that hands
    the rows back as they are (they have [n_dim = 2] entries already), and
    a generator that always draws its lower bound. *)
Definition embeddings : list (list float) := [[3; 4]; [0; 0]; [5; 12]]%float.

Definition pca_identity (n : nat) (X : list (list float))
  : result (list (list float)) :=
  Ok X.

Definition normalised : list (list float) :=
  [[3 / 5; 4 / 5]; [0; 0]; [5 / 13; 12 / 13]]%float.


Definition randint_low (low high : Z) (n : nat) : list Z := repeat low n.
End Demo.

(* ===================================================================== *)
(** * The cell that prints sentence 10, and further bookkeeping           *)
(* ===================================================================== *)

Section ShowCell.
Context {Scalar : Type}.
Variable g : Globals Scalar.

(** [[id_to_word[int(id)] for id in ids]]: the words that [' '.join]
    joins. *)
Definition words_of (ids : list Z) : result (list string) :=
  map_result (dict_get Z.eqb (id_to_word g)) ids.

(** The two [print] statements of the cell, in order: the words of
    [sentences[10]], then those of [sentences_truncated[10]]. *)
Definition show_cell (sentences : list (list Z))
  : result (list string * list string) :=
  result_bind (getitem sentences 10) (fun original =>
  result_bind (words_of original) (fun original_words =>
  result_bind (getitem (sentences_truncated g) 10) (fun truncated =>
  result_bind (words_of truncated) (fun truncated_words =>
  Ok (original_words, truncated_words))))).
End ShowCell.

(** The kernel after [tapes] more tapes have been handed to a device. *)
Definition with_tapes {Scalar OptState : Type} (w : World Scalar OptState)
  (tapes : list (Tape Scalar)) : World Scalar OptState :=
  {| parameters := parameters w; opt := opt w;
     executed := executed w ++ tapes; completed := completed w |}.

(** A computation that hands at most [k] tapes to a device, exactly [k]
    when it returns, and changes nothing else of the kernel. *)
Definition runs_tapes {Scalar OptState A : Type} (k : nat)
  (c : M (World Scalar OptState) A) : Prop :=
  forall w, exists tapes,
    fst (c w) = with_tapes w tapes /\
    (length tapes <= k)%nat /\
    (forall a, snd (c w) = Ok a -> length tapes = k).

(** The number of rows that a boolean mask selects. *)
Definition count_selected (mask : list bool) : nat :=
  length (filter (fun b => b) mask).

(** What holds of the dictionary [d] that the comprehension of
    [id_to_word] has built from the entries [seen] of [vocab]: no key
    twice, every entry comes from [seen] and has a row of positive norm,
    and every id of [seen] with such a row can be looked up. *)
Definition dictionary_ok (norm : list float -> float)
  (reduced_norm : list (list float))
  (d : list (Z * string)) (seen : list (string * Z)) : Prop :=
  NoDup (map fst d) /\
  (forall id word, In (id, word) d ->
     In (word, id) seen /\
     exists row, getitem reduced_norm id = Ok row /\
                 Preprocessing.positive (norm row) = true) /\
  (forall word id, In (word, id) seen ->
     exists row, getitem reduced_norm id = Ok row /\
                 (Preprocessing.positive (norm row) = true ->
                  exists word', dict_get Z.eqb d id = Ok word')).

(** More concrete data: a notebook of three sentences, a kernel whose
    [parameters] is bound, and a preprocessing run. *)
Module Demo2.
Definition short_globals : Globals Z :=
  {| embeddings_reduced_norm := [[1; 0]; [0; 1]; [0; 0]];
     sentences_truncated := [[0; 1]; [1; 2]; [2; 0]];
     missing_word := [0; 1; 0];
     all_indices := [[2; 1]; [0; 2]; [2; 1]];
     vocab := vocab Demo.globals;
     id_to_word := id_to_word Demo.globals;
     word_indices := [0; 1] |}.

Definition other_rows : Globals Z :=
  {| embeddings_reduced_norm := [[1; 0]; [0; 1]; [0; 0]];
     sentences_truncated := [[0; 1]; [1; 2]; [2; 0]];
     missing_word := [0; 1; 0];
     all_indices := [[2; 1]; [0; 2]; [7; 7]; [8; 8]];
     vocab := vocab Demo.globals;
     id_to_word := id_to_word Demo.globals;
     word_indices := [0; 1] |}.


Definition trained_world : World Z unit :=
  {| parameters := Some (np_random_rand Demo.lib 1 2 1); opt := tt;
     executed := []; completed := [] |}.

Definition eleven_sentences : list (list Z) :=
  map (fun k => [Z.of_nat (k mod 2); Z.of_nat ((k + 1) mod 2); 0]) (range 11).

Definition eleven_globals : Globals Z :=
  {| embeddings_reduced_norm := [[1; 0]; [0; 1]; [0; 0]];
     sentences_truncated := map (firstn 2) eleven_sentences;
     missing_word := repeat 0 11;
     all_indices := repeat [2; 1] 11;
     vocab := vocab Demo.globals;
     id_to_word := id_to_word Demo.globals;
     word_indices := [0; 1] |}.

Definition sentences : list (list Z) := [[0; 1; 1]; [1; 0; 0]].

Definition vocabulary : list (string * Z) :=
  [("earth", 0); ("padding", 1)]%string.

(** The three arrays are on disk, the pickled vocabulary is not. *)
Definition no_vocabulary_file : Preprocessing.Files :=
  {| Preprocessing.embeddings_npy := Ok Demo.embeddings;
     Preprocessing.sentences_npy := Ok sentences;
     Preprocessing.labels_npy := Ok [];
     Preprocessing.vocab_p := Raise OSError |}.

Definition preprocessed : Globals float :=
  {| embeddings_reduced_norm := Demo.normalised;
     sentences_truncated := [[0; 1]; [1; 0]];
     missing_word := [0; 0];
     all_indices := [[2; 1]; [2; 1]];
     vocab := vocabulary;
     id_to_word := [(0, "earth"%string)];
     word_indices := [0] |}.
End Demo2.

(* ===================================================================== *)
(** * Proofs                                                              *)
(* ===================================================================== *)

(** ** The kernel monad *)

Unset Implicit Arguments.

Lemma bind_ok {W A B} (c : M W A) (k : A -> M W B) w w' a :
  c w = (w', Ok a) -> bind c k w = k a w'.
Proof. intros H. unfold bind. now rewrite H. Qed.

Lemma bind_raise {W A B} (c : M W A) (k : A -> M W B) w w' e :
  c w = (w', Raise e) -> bind c k w = (w', Raise e).
Proof. intros H. unfold bind. now rewrite H. Qed.

Lemma bind_lift_ok {W A B} (r : result A) (k : A -> M W B) w a :
  r = Ok a -> bind (lift r) k w = k a w.
Proof. intros ->. reflexivity. Qed.

Lemma bind_lift_raise {W A B} (r : result A) (k : A -> M W B) w e :
  r = Raise e -> bind (lift r) k w = (w, Raise e).
Proof. intros ->. reflexivity. Qed.

Lemma bind_assoc {W A B C} (c : M W A) (f : A -> M W B) (k : B -> M W C) w :
  bind (bind c f) k w = bind c (fun a => bind (f a) k) w.
Proof. unfold bind. destruct (c w) as [w' [a|e]]; reflexivity. Qed.

Lemma bind_ext {W A B} (c : M W A) (k k' : A -> M W B) w :
  (forall a w', k a w' = k' a w') -> bind c k w = bind c k' w.
Proof. intros H. unfold bind. destruct (c w) as [w' [a|e]]; auto. Qed.

Lemma for_each_ext {W A B} (body body' : B -> A -> M W B) l :
  (forall acc x w, body acc x w = body' acc x w) ->
  forall acc w, for_each body l acc w = for_each body' l acc w.
Proof.
  intros Hbody. induction l as [|x rest IH]; intros acc w; simpl.
  - reflexivity.
  - unfold bind. rewrite Hbody. destruct (body' acc x w) as [w' [a|e]]; auto.
Qed.

Lemma mapM_ext {W A B} (f f' : A -> M W B) l :
  (forall x w, f x w = f' x w) ->
  forall w, mapM f l w = mapM f' l w.
Proof.
  intros Hf. induction l as [|x rest IH]; intros w; simpl.
  - reflexivity.
  - unfold bind. rewrite Hf. destruct (f' x w) as [w' [a|e]]; auto.
    rewrite IH. reflexivity.
Qed.

(** An accumulating loop whose body adds one computed term is the
    left-to-right sum of the terms. *)
Lemma for_each_accumulate {W A S} (term : A -> M W S) (add : S -> S -> S) l :
  forall acc w,
    for_each (fun acc x => t <- term x ;; ret (add acc t)) l acc w =
    (terms <- mapM term l ;; ret (fold_left add terms acc)) w.
Proof.
  induction l as [|x rest IH]; intros acc w; simpl.
  - reflexivity.
  - unfold bind, ret in *.
    destruct (term x w) as [w' [t|e]]; simpl; [|reflexivity].
    rewrite IH.
    destruct (mapM term rest w') as [w'' [ts|e]]; reflexivity.
Qed.

(** ** Indexing *)

Lemma normalize_index_nonneg n (k : nat) :
  (k < n)%nat -> normalize_index n (Z.of_nat k) = Some k.
Proof.
  intros Hk. unfold normalize_index.
  replace (0 <=? Z.of_nat k) with true by (symmetry; apply Z.leb_le; lia).
  replace (Z.of_nat k <? Z.of_nat n) with true by (symmetry; apply Z.ltb_lt; lia).
  simpl. now rewrite Nat2Z.id.
Qed.

Lemma normalize_index_beyond n (i : Z) :
  Z.of_nat n <= i -> normalize_index n i = None.
Proof.
  intros Hi. unfold normalize_index.
  replace (i <? Z.of_nat n) with false by (symmetry; apply Z.ltb_ge; lia).
  replace (i <? 0) with false by (symmetry; apply Z.ltb_ge; lia).
  now rewrite !andb_false_r.
Qed.

Lemma normalize_index_bounds n i k :
  normalize_index n i = Some k -> (k < n)%nat.
Proof.
  unfold normalize_index.
  destruct ((0 <=? i) && (i <? Z.of_nat n)) eqn:Hfront.
  - apply andb_prop in Hfront as [H0 H1].
    apply Z.leb_le in H0. apply Z.ltb_lt in H1. intros [= <-]. lia.
  - destruct ((- Z.of_nat n <=? i) && (i <? 0)) eqn:Hback; [|discriminate].
    apply andb_prop in Hback as [H0 H1].
    apply Z.leb_le in H0. apply Z.ltb_lt in H1. intros [= <-]. lia.
Qed.

Lemma getitem_nonneg {A} (a : list A) (k : nat) x :
  nth_error a k = Some x -> getitem a (Z.of_nat k) = Ok x.
Proof.
  intros Hx. unfold getitem.
  rewrite normalize_index_nonneg by (apply nth_error_Some; congruence).
  now rewrite Hx.
Qed.

Lemma getitem_beyond {A} (a : list A) (i : Z) :
  Z.of_nat (length a) <= i -> getitem a i = Raise IndexError.
Proof. intros Hi. unfold getitem. now rewrite normalize_index_beyond. Qed.

Lemma normalize_index_last n : normalize_index (S n) (-1) = Some n.
Proof.
  unfold normalize_index.
  destruct (0 <=? -1) eqn:H0; [apply Z.leb_le in H0; lia|].
  destruct (- Z.of_nat (S n) <=? -1) eqn:H1; [|apply Z.leb_gt in H1; lia].
  destruct (-1 <? 0) eqn:H2; [|apply Z.ltb_ge in H2; lia].
  cbn [andb]. f_equal. lia.
Qed.

(** [wires[-1]] of a device with at least one wire is its last wire. *)
Lemma getitem_last_wire n :
  getitem (map Z.of_nat (range (S n))) (-1) = Ok (Z.of_nat n).
Proof.
  unfold getitem, range. rewrite length_map, length_seq.
  rewrite normalize_index_last.
  rewrite nth_error_map, nth_error_seq.
  replace (n <? S n)%nat with true by (symmetry; apply Nat.ltb_lt; lia).
  reflexivity.
Qed.

Lemma take_seq_prefix {A} (a : list A) : forall pre n,
  (n <= length a)%nat ->
  take (pre ++ a) (map Z.of_nat (seq (length pre) n)) = Ok (firstn n a).
Proof.
  induction a as [|x rest IH]; intros pre n Hn.
  - simpl in Hn. replace n with O by lia. reflexivity.
  - destruct n as [|n]; [reflexivity|].
    cbn [seq map take map_result firstn].
    rewrite (getitem_nonneg (pre ++ x :: rest) (length pre) x)
      by (rewrite nth_error_app2, Nat.sub_diag by lia; reflexivity).
    cbn [result_bind].
    specialize (IH (pre ++ [x]) n).
    rewrite <- app_assoc, length_app, Nat.add_1_r in IH.
    unfold take in IH. cbn [app length] in IH.
    rewrite IH by (simpl in Hn; lia). reflexivity.
Qed.


Lemma map_result_ok {A B} (f : A -> result B) l :
  (forall x, In x l -> exists y, f x = Ok y) ->
  exists ys, map_result f l = Ok ys.
Proof.
  induction l as [|x rest IH]; intros Hf; simpl.
  - now exists [].
  - destruct (Hf x (or_introl eq_refl)) as [y ->].
    destruct IH as [ys ->]; [intros; apply Hf; now right|].
    now exists (y :: ys).
Qed.


(** ** The cost of the first copy *)

Section Copy1Cost.
Context {Scalar OptState Grad : Type}.
Variable config : Config.
Variable utils : Utils Scalar.
Variable lib : Library Scalar OptState Grad.
Variable g : Globals Scalar.

Lemma Copy1_n_wires_succ :
  Copy1.n_wires config =
  S (Copy1.qbits_per_word config * (Copy1.max_length config + 1)).
Proof. unfold Copy1.n_wires. lia. Qed.

(** When the two quantum functions and the slicing return, the QNode hands
    exactly one tape to its device and passes on what the device says. *)
Lemma Copy1_compute_overlap_words_tape
  parameters embeddings indices target_word encoded params ansatz w :
  encode_words utils embeddings indices = Ok encoded ->
  layer_params parameters (Copy1.num_layers config) = Ok params ->
  circuit_final utils params (wires (Copy1.dev config lib))
                (Copy1.num_layers config) target_word = Ok ansatz ->
  let tape := {| operations := encoded ++ ansatz;
                 expval := PauliZ (Z.of_nat (Copy1.n_wires config - 1)) |} in
  Copy1.compute_overlap_words config utils lib
    parameters embeddings indices target_word w =
  (submitted tape w, execute (Copy1.dev config lib) tape).
Proof.
  intros Henc Hpar Hcirc tape. unfold Copy1.compute_overlap_words.
  rewrite (bind_lift_ok _ _ _ _ Henc), (bind_lift_ok _ _ _ _ Hpar),
    (bind_lift_ok _ _ _ _ Hcirc).
  assert (Hlast : getitem (wires (Copy1.dev config lib)) (-1)
                  = Ok (Z.of_nat (Copy1.n_wires config - 1))).
  { unfold Copy1.dev, Copy1.dev_local, default_qubit; simpl wires.
    rewrite Copy1_n_wires_succ. rewrite getitem_last_wire.
    f_equal. f_equal. lia. }
  rewrite (bind_lift_ok _ _ _ _ Hlast). reflexivity.
Qed.

Lemma Copy1_cost_body_is_term parameters missing_words acc item w :
  (let '(i, sentence) := item in
   embeddings <- lift (take (embeddings_reduced_norm g) sentence) ;;
   indices <- lift (getitem (all_indices g) (Z.of_nat i)) ;;
   m_w <- lift (getitem missing_words (Z.of_nat i)) ;;
   overlap <- Copy1.compute_overlap_words config utils lib
                parameters embeddings indices m_w ;;
   ret (add lib acc overlap)) w =
  (t <- sentence_overlap config utils lib g parameters missing_words item ;;
   ret (add lib acc t)) w.
Proof.
  destruct item as [i sentence]. unfold sentence_overlap.
  rewrite !bind_assoc. apply bind_ext; intros embeddings w1.
  rewrite !bind_assoc. apply bind_ext; intros indices w2.
  rewrite !bind_assoc. apply bind_ext; intros m_w w3. reflexivity.
Qed.

Lemma Copy1_cost_as_sum parameters sentences missing_words w :
  Copy1.cost config utils lib g parameters sentences missing_words w =
  (terms <- mapM (sentence_overlap config utils lib g parameters missing_words)
                 (enumerate sentences) ;;
   ret (sum_in_order (zero lib) (add lib) terms)) w.
Proof.
  unfold Copy1.cost, sum_in_order.
  rewrite <- for_each_accumulate.
  apply for_each_ext. intros acc item w'.
  apply Copy1_cost_body_is_term.
Qed.

(** C2. For every parameter array, list of sentences and list of
    missing-word positions, [cost] is the sum, over the sentences in order
    (starting from [0], one [+] per sentence), of [compute_overlap_words]
    applied to the parameters, the reduced-normalized embeddings of the
    sentence's word ids, the row [all_indices[i]] and the position
    [missing_words[i]]: the same outcome (value or exception) and the same
    kernel state.  And [compute_overlap_words] records the operations of
    [encode_words] followed by those of [circuit_final] and returns what
    its device gives for the expectation value of [PauliZ] on the last
    wire. *)
Theorem C2_cost_is_sum_of_overlaps :
  (forall parameters sentences missing_words w,
     Copy1.cost config utils lib g parameters sentences missing_words w =
     (terms <- mapM (sentence_overlap config utils lib g parameters missing_words)
                    (enumerate sentences) ;;
      ret (sum_in_order (zero lib) (add lib) terms)) w)
  /\
  (forall parameters embeddings indices target_word encoded params ansatz w,
     encode_words utils embeddings indices = Ok encoded ->
     layer_params parameters (Copy1.num_layers config) = Ok params ->
     circuit_final utils params (wires (Copy1.dev config lib))
                   (Copy1.num_layers config) target_word = Ok ansatz ->
     Copy1.compute_overlap_words config utils lib
       parameters embeddings indices target_word w =
     (submitted {| operations := encoded ++ ansatz;
                   expval := PauliZ (Z.of_nat (Copy1.n_wires config - 1)) |} w,
      execute (Copy1.dev config lib)
              {| operations := encoded ++ ansatz;
                 expval := PauliZ (Z.of_nat (Copy1.n_wires config - 1)) |})).
Proof.
  split.
  - apply Copy1_cost_as_sum.
  - intros. eapply Copy1_compute_overlap_words_tape; eassumption.
Qed.
End Copy1Cost.

(** ** Loops *)

Lemma for_each_app {W A B} (body : B -> A -> M W B) l1 l2 :
  forall acc w,
    for_each body (l1 ++ l2) acc w =
    (acc1 <- for_each body l1 acc ;; for_each body l2 acc1) w.
Proof.
  induction l1 as [|x rest IH]; intros acc w; simpl.
  - reflexivity.
  - rewrite bind_assoc. apply bind_ext. intros a w'. apply IH.
Qed.

(** Two nested loops over [unit] run the inner body once per pair, in
    lexicographic order. *)
Lemma for_each_nested {W A E} (body : unit -> A -> M W unit) (l : list A)
  (es : list E) :
  forall w,
    for_each (fun _ _ => for_each body l tt) es tt w =
    for_each body (flat_map (fun _ => l) es) tt w.
Proof.
  induction es as [|e rest IH]; intros w; simpl.
  - reflexivity.
  - rewrite for_each_app. apply bind_ext. intros [] w'. apply IH.
Qed.

(** A loop stops at the first iteration that raises. *)
Lemma for_each_raise {W A B} (body : B -> A -> M W B) pre x post acc w w1 acc1 w2 e :
  for_each body pre acc w = (w1, Ok acc1) ->
  body acc1 x w1 = (w2, Raise e) ->
  for_each body (pre ++ x :: post) acc w = (w2, Raise e).
Proof.
  intros Hpre Hx. rewrite for_each_app. rewrite (bind_ok _ _ _ _ _ Hpre). simpl.
  now rewrite (bind_raise _ _ _ _ _ Hx).
Qed.

Lemma mapM_app {W A B} (f : A -> M W B) l1 l2 :
  forall w,
    mapM f (l1 ++ l2) w =
    (ys1 <- mapM f l1 ;; ys2 <- mapM f l2 ;; ret (ys1 ++ ys2)) w.
Proof.
  induction l1 as [|x rest IH]; intros w; simpl.
  - unfold bind, ret. destruct (mapM f l2 w) as [w' [ys|e]]; reflexivity.
  - unfold bind, ret in *. destruct (f x w) as [w1 [y|e]]; [|reflexivity].
    rewrite IH. destruct (mapM f rest w1) as [w2 [ys1|e]]; [|reflexivity].
    destruct (mapM f l2 w2) as [w3 [ys2|e]]; reflexivity.
Qed.

Lemma mapM_raise {W A B} (f : A -> M W B) pre x post w w1 ys w2 e :
  mapM f pre w = (w1, Ok ys) ->
  f x w1 = (w2, Raise e) ->
  mapM f (pre ++ x :: post) w = (w2, Raise e).
Proof.
  intros Hpre Hx. rewrite mapM_app. rewrite (bind_ok _ _ _ _ _ Hpre). simpl.
  now rewrite (bind_raise _ _ _ _ _ (bind_raise _ _ _ _ _ Hx)).
Qed.

Lemma combine_seq_app {A} (l1 l2 : list A) : forall s,
  combine (seq s (length (l1 ++ l2))) (l1 ++ l2) =
  combine (seq s (length l1)) l1 ++ combine (seq (s + length l1) (length l2)) l2.
Proof.
  induction l1 as [|x rest IH]; intros s; simpl.
  - now rewrite Nat.add_0_r.
  - rewrite IH. now rewrite Nat.add_succ_r.
Qed.

Lemma enumerate_app {A} (pre : list A) x post :
  enumerate (pre ++ x :: post) =
  enumerate pre ++ (length pre, x) :: combine (seq (S (length pre)) (length post)) post.
Proof. unfold enumerate. now rewrite combine_seq_app. Qed.

(** ** What a computation leaves alone *)

Section Frame.
Context {Scalar OptState : Type}.

Lemma keeps_ret {A} (a : A) : keeps_globals (@ret (World Scalar OptState) A a).
Proof. intros w. now split. Qed.

Lemma keeps_lift {A} (r : result A) :
  keeps_globals (@lift (World Scalar OptState) A r).
Proof. intros w. now split. Qed.

Lemma keeps_bind {A B} (c : M (World Scalar OptState) A)
  (k : A -> M (World Scalar OptState) B) :
  keeps_globals c -> (forall a, keeps_globals (k a)) -> keeps_globals (bind c k).
Proof.
  intros Hc Hk w. unfold bind. specialize (Hc w).
  destruct (c w) as [w' [a|e]]; simpl in *; [|exact Hc].
  destruct (Hk a w') as [Hp Hd]. destruct Hc as [Hp' Hd'].
  split; congruence.
Qed.

Lemma keeps_for_each {A B} (body : B -> A -> M (World Scalar OptState) B) l :
  (forall acc x, keeps_globals (body acc x)) ->
  forall acc, keeps_globals (for_each body l acc).
Proof.
  intros Hbody. induction l as [|x rest IH]; intros acc; simpl.
  - apply keeps_ret.
  - apply keeps_bind; auto.
Qed.

Lemma keeps_qnode_execute (dev : Device Scalar) tape :
  keeps_globals (@qnode_execute Scalar OptState dev tape).
Proof. intros w. now split. Qed.

Lemma keeps_on_device {A}
  (f : list (Tape Scalar) -> list (Tape Scalar) * result A) :
  keeps_globals (@on_device Scalar OptState A f).
Proof. intros w. unfold on_device. destruct (f (executed w)). now split. Qed.

Lemma keeps_set_opt (o : OptState) : keeps_globals (@set_opt Scalar OptState o).
Proof. intros w. now split. Qed.

Lemma keeps_get : keeps_globals (@get (World Scalar OptState)).
Proof. intros w. now split. Qed.

Lemma keeps_optimizer_ret {A} (a : A) :
  keeps_optimizer (@ret (World Scalar OptState) A a).
Proof. intros w. reflexivity. Qed.

Lemma keeps_optimizer_lift {A} (r : result A) :
  keeps_optimizer (@lift (World Scalar OptState) A r).
Proof. intros w. reflexivity. Qed.

Lemma keeps_optimizer_bind {A B} (c : M (World Scalar OptState) A)
  (k : A -> M (World Scalar OptState) B) :
  keeps_optimizer c -> (forall a, keeps_optimizer (k a)) ->
  keeps_optimizer (bind c k).
Proof.
  intros Hc Hk w. unfold bind. specialize (Hc w).
  destruct (c w) as [w' [a|e]]; simpl in *; [|exact Hc].
  now rewrite (Hk a w').
Qed.

Lemma keeps_optimizer_for_each {A B}
  (body : B -> A -> M (World Scalar OptState) B) l :
  (forall acc x, keeps_optimizer (body acc x)) ->
  forall acc, keeps_optimizer (for_each body l acc).
Proof.
  intros Hbody. induction l as [|x rest IH]; intros acc; simpl.
  - apply keeps_optimizer_ret.
  - apply keeps_optimizer_bind; auto.
Qed.

Lemma keeps_optimizer_qnode_execute (dev : Device Scalar) tape :
  keeps_optimizer (@qnode_execute Scalar OptState dev tape).
Proof. intros w. reflexivity. Qed.
End Frame.

Create HintDb frame.
#[local] Hint Resolve keeps_ret keeps_lift keeps_qnode_execute keeps_on_device
  keeps_set_opt keeps_get : frame.

Ltac keeps :=
  repeat first
    [ apply keeps_bind; [|intros ?]
    | apply keeps_for_each; intros ? ?
    | solve [auto with frame]
    | match goal with |- keeps_globals (match ?x with _ => _ end) => destruct x end ].

(** ** The schedule of batches *)

Lemma in_arange lo hi j : In j (arange lo hi) <-> lo <= j < hi.
Proof.
  unfold arange. rewrite in_map_iff. split.
  - intros [k [<- Hk]]. apply in_seq in Hk. lia.
  - intros Hj. exists (Z.to_nat (j - lo)). split; [lia|].
    apply in_seq. lia.
Qed.

Lemma length_arange lo hi : length (arange lo hi) = Z.to_nat (hi - lo).
Proof. unfold arange. now rewrite length_map, length_seq. Qed.


Lemma Copy1_batch_of_arange i :
  Copy1.batch_of i = arange (10 * Z.of_nat i) (10 * (Z.of_nat i + 1)).
Proof. unfold Copy1.batch_of, Copy1.batch_size. f_equal; lia. Qed.




(** ** The training cell of the first copy *)

Section Copy1Training.
Context {Scalar OptState Grad : Type}.
Variable config : Config.
Variable utils : Utils Scalar.
Variable lib : Library Scalar OptState Grad.
Variable g : Globals Scalar.

Lemma keeps_compute_overlap_words parameters embeddings indices target_word :
  keeps_globals (Copy1.compute_overlap_words (OptState:=OptState) config utils lib
                   parameters embeddings indices target_word).
Proof. unfold Copy1.compute_overlap_words. keeps. Qed.

Lemma keeps_cost parameters sentences missing_words :
  keeps_globals (Copy1.cost config utils lib g parameters sentences missing_words).
Proof.
  unfold Copy1.cost. apply keeps_for_each. intros acc [i sentence].
  keeps; apply keeps_compute_overlap_words.
Qed.

Lemma keeps_cost_batch batch parameters :
  keeps_globals (Copy1.cost_batch config utils lib g batch parameters).
Proof. unfold Copy1.cost_batch. keeps; apply keeps_cost. Qed.

Lemma keeps_step objective_fn x :
  (forall p, keeps_globals (objective_fn p)) ->
  keeps_globals (step lib objective_fn x).
Proof.
  intros Hobj. unfold step.
  apply keeps_bind; [apply Hobj|intros forward].
  apply keeps_bind; [apply keeps_on_device|intros gr].
  apply keeps_bind; [apply keeps_get|intros w].
  destruct (apply_grad lib (opt w) gr x) as [o' new_args]. keeps.
Qed.

(** The forward pass comes first: what the objective raises, [step]
    raises, before any gradient is taken or any moment is updated. *)
Lemma step_forward_raise objective_fn x w w' e :
  objective_fn x w = (w', Raise e) ->
  step lib objective_fn x w = (w', Raise e).
Proof. intros H. unfold step. now rewrite (bind_raise _ _ _ _ _ H). Qed.

Lemma step_backward_raise objective_fn x w w1 forward log e :
  objective_fn x w = (w1, Ok forward) ->
  backward lib x forward (executed w1) = (log, Raise e) ->
  step lib objective_fn x w =
  ({| parameters := parameters w1; opt := opt w1; executed := log;
      completed := completed w1 |}, Raise e).
Proof.
  intros Hf Hb. unfold step. rewrite (bind_ok _ _ _ _ _ Hf).
  unfold bind, on_device. now rewrite Hb.
Qed.


Lemma train_batch_raise i w p w' e :
  parameters w = Some p ->
  step lib (Copy1.cost_batch config utils lib g (Copy1.batch_of i)) p w
  = (w', Raise e) ->
  Copy1.train_batch config utils lib g i w = (w', Raise e).
Proof.
  intros Hp Hstep. unfold Copy1.train_batch.
  assert (Hread : read_parameters w = (w, Ok p))
    by (unfold read_parameters; now rewrite Hp).
  now rewrite (bind_ok _ _ _ _ _ Hread), (bind_raise _ _ _ _ _ Hstep).
Qed.

Lemma training_loop_flat w :
  Copy1.training_loop config utils lib g w =
  for_each (fun _ i => Copy1.train_batch config utils lib g i)
           (flat_map (fun _ => range (Copy1.N_batches g)) (range Copy1.epochs))
           tt w.
Proof. unfold Copy1.training_loop. apply for_each_nested. Qed.

Lemma training_cell_start w :
  Copy1.training_cell config utils lib g w =
  Copy1.training_loop config utils lib g (training_start config lib w).
Proof. reflexivity. Qed.



Lemma Copy1_get_most_probable_word_unfold sentence position look_in w :
  Copy1.get_most_probable_word config utils lib g sentence position look_in w =
  (assert_ (position <? Z.of_nat (Copy1.num_words config)) ;;;
   embeddings_input <- lift (take (embeddings_reduced_norm g) sentence) ;;
   cs <- lift (candidates g look_in) ;;
   for_each (candidate_round config utils lib g embeddings_input position)
            cs []) w.
Proof. reflexivity. Qed.

(** *** No handler anywhere *)

Lemma keeps_optimizer_cost_batch batch parameters :
  keeps_optimizer (Copy1.cost_batch config utils lib g batch parameters).
Proof.
  unfold Copy1.cost_batch.
  apply keeps_optimizer_bind; [apply keeps_optimizer_lift|intros sentences].
  apply keeps_optimizer_bind; [apply keeps_optimizer_lift|intros missing_words].
  unfold Copy1.cost. apply keeps_optimizer_for_each. intros acc [i sentence].
  apply keeps_optimizer_bind; [apply keeps_optimizer_lift|intros embeddings].
  apply keeps_optimizer_bind; [apply keeps_optimizer_lift|intros indices].
  apply keeps_optimizer_bind; [apply keeps_optimizer_lift|intros m_w].
  apply keeps_optimizer_bind; [|intros overlap; apply keeps_optimizer_ret].
  unfold Copy1.compute_overlap_words.
  apply keeps_optimizer_bind; [apply keeps_optimizer_lift|intros encoded].
  apply keeps_optimizer_bind; [apply keeps_optimizer_lift|intros params].
  apply keeps_optimizer_bind; [apply keeps_optimizer_lift|intros ansatz].
  apply keeps_optimizer_bind; [apply keeps_optimizer_lift|intros last].
  apply keeps_optimizer_qnode_execute.
Qed.

(** A step that raises has not touched the optimizer: its moments are
    only updated by [apply_grad], after the backward pass has returned. *)
Lemma step_raise_keeps_optimizer objective_fn x w w' e :
  (forall p, keeps_optimizer (objective_fn p)) ->
  step lib objective_fn x w = (w', Raise e) ->
  opt w' = opt w.
Proof.
  intros Hobj. unfold step. unfold bind at 1.
  pose proof (Hobj x w) as Hfwd.
  destruct (objective_fn x w) as [w1 [forward|e1]]; simpl in Hfwd.
  - unfold bind at 1, on_device.
    destruct (backward lib x forward (executed w1)) as [log [gr|e2]].
    + unfold bind at 1, get.
      destruct (apply_grad lib _ gr x) as [o' new_args]. discriminate.
    + intros [= <- _]. exact Hfwd.
  - intros [= <- _]. exact Hfwd.
Qed.

Lemma pca_raises (pca_fit_transform :
    nat -> list (list float) -> result (list (list float)))
  (norm_axis1 : list float -> float) embeddings e :
  pca_fit_transform (Preprocessing.n_dim config)
    (Preprocessing.select (Preprocessing.norms_positive norm_axis1 embeddings)
                          embeddings) = Raise e ->
  Preprocessing.embeddings_reduced_norm config pca_fit_transform norm_axis1
    embeddings = Raise e.
Proof.
  intros H. unfold Preprocessing.embeddings_reduced_norm,
    Preprocessing.embeddings_reduced.
  now rewrite H.
Qed.

(** C9. No cell handles an exception, so whatever a call raises comes out
    of the cell unchanged, with the kernel as it was when the call raised.
    In the preprocessing cell: from each of the four file loads, from
    [randint], from PCA, from the index loop and from the dictionary
    comprehension.  In the QNode: from [encode_words], from the slicing of
    the parameters, from [circuit_final] and from the device.  In [cost]:
    from each look-up of a sentence's term, from the QNode, and from the
    term of any sentence after the earlier ones returned.  In the objective
    of a training step: from the two batch look-ups and from [cost].  In
    [opt.step]: from the forward pass and from the backward pass.  In
    [get_most_probable_word]: from the look-up of the sentence, from
    [word_indices[look_in]], from the look-up of a candidate, from the
    unbound [parameters], from the QNode, and from any round of the
    candidate loop after the earlier ones returned.  In the training cell:
    from any optimizer step after the earlier ones returned; and then the
    global [parameters] still holds what the earlier steps bound, the
    optimizer is as the earlier steps left it, and the history of completed
    batches is the one before that step. *)
Theorem C9_exceptions_propagate :
  (* the preprocessing cell *)
  (forall pca_fit_transform norm_axis1 norm randint files e,
     Preprocessing.embeddings_npy files = Raise e ->
     Preprocessing.run_cell config pca_fit_transform norm_axis1 norm randint files
     = Raise e)
  /\
  (forall pca_fit_transform norm_axis1 norm randint files embeddings e,
     Preprocessing.embeddings_npy files = Ok embeddings ->
     Preprocessing.sentences_npy files = Raise e ->
     Preprocessing.run_cell config pca_fit_transform norm_axis1 norm randint files
     = Raise e)
  /\
  (forall pca_fit_transform norm_axis1 norm randint files embeddings sentences e,
     Preprocessing.embeddings_npy files = Ok embeddings ->
     Preprocessing.sentences_npy files = Ok sentences ->
     Preprocessing.labels_npy files = Raise e ->
     Preprocessing.run_cell config pca_fit_transform norm_axis1 norm randint files
     = Raise e)
  /\
  (forall pca_fit_transform norm_axis1 norm randint files
          embeddings sentences labels e,
     Preprocessing.embeddings_npy files = Ok embeddings ->
     Preprocessing.sentences_npy files = Ok sentences ->
     Preprocessing.labels_npy files = Ok labels ->
     Preprocessing.missing_word config randint sentences = Raise e ->
     Preprocessing.run_cell config pca_fit_transform norm_axis1 norm randint files
     = Raise e)
  /\
  (forall pca_fit_transform norm_axis1 norm randint files
          embeddings sentences labels mw e,
     Preprocessing.embeddings_npy files = Ok embeddings ->
     Preprocessing.sentences_npy files = Ok sentences ->
     Preprocessing.labels_npy files = Ok labels ->
     Preprocessing.missing_word config randint sentences = Ok mw ->
     pca_fit_transform (Preprocessing.n_dim config)
       (Preprocessing.select (Preprocessing.norms_positive norm_axis1 embeddings)
                             embeddings) = Raise e ->
     Preprocessing.run_cell config pca_fit_transform norm_axis1 norm randint files
     = Raise e)
  /\
  (forall pca_fit_transform norm_axis1 norm randint files
          embeddings sentences labels mw ern e,
     Preprocessing.embeddings_npy files = Ok embeddings ->
     Preprocessing.sentences_npy files = Ok sentences ->
     Preprocessing.labels_npy files = Ok labels ->
     Preprocessing.missing_word config randint sentences = Ok mw ->
     Preprocessing.embeddings_reduced_norm config pca_fit_transform norm_axis1
       embeddings = Ok ern ->
     Preprocessing.all_indices config sentences mw = Raise e ->
     Preprocessing.run_cell config pca_fit_transform norm_axis1 norm randint files
     = Raise e)
  /\
  (forall pca_fit_transform norm_axis1 norm randint files
          embeddings sentences labels mw ern ai e,
     Preprocessing.embeddings_npy files = Ok embeddings ->
     Preprocessing.sentences_npy files = Ok sentences ->
     Preprocessing.labels_npy files = Ok labels ->
     Preprocessing.missing_word config randint sentences = Ok mw ->
     Preprocessing.embeddings_reduced_norm config pca_fit_transform norm_axis1
       embeddings = Ok ern ->
     Preprocessing.all_indices config sentences mw = Ok ai ->
     Preprocessing.vocab_p files = Raise e ->
     Preprocessing.run_cell config pca_fit_transform norm_axis1 norm randint files
     = Raise e)
  /\
  (forall pca_fit_transform norm_axis1 norm randint files
          embeddings sentences labels mw ern ai vocabulary e,
     Preprocessing.embeddings_npy files = Ok embeddings ->
     Preprocessing.sentences_npy files = Ok sentences ->
     Preprocessing.labels_npy files = Ok labels ->
     Preprocessing.missing_word config randint sentences = Ok mw ->
     Preprocessing.embeddings_reduced_norm config pca_fit_transform norm_axis1
       embeddings = Ok ern ->
     Preprocessing.all_indices config sentences mw = Ok ai ->
     Preprocessing.vocab_p files = Ok vocabulary ->
     Preprocessing.id_to_word norm ern vocabulary = Raise e ->
     Preprocessing.run_cell config pca_fit_transform norm_axis1 norm randint files
     = Raise e)
  /\
  (* the QNode *)
  (forall parameters embeddings indices target_word w e,
     encode_words utils embeddings indices = Raise e ->
     Copy1.compute_overlap_words config utils lib
       parameters embeddings indices target_word w = (w, Raise e))
  /\
  (forall parameters embeddings indices target_word encoded w e,
     encode_words utils embeddings indices = Ok encoded ->
     layer_params parameters (Copy1.num_layers config) = Raise e ->
     Copy1.compute_overlap_words config utils lib
       parameters embeddings indices target_word w = (w, Raise e))
  /\
  (forall parameters embeddings indices target_word encoded params w e,
     encode_words utils embeddings indices = Ok encoded ->
     layer_params parameters (Copy1.num_layers config) = Ok params ->
     circuit_final utils params (wires (Copy1.dev config lib))
                   (Copy1.num_layers config) target_word = Raise e ->
     Copy1.compute_overlap_words config utils lib
       parameters embeddings indices target_word w = (w, Raise e))
  /\
  (forall parameters embeddings indices target_word encoded params ansatz w e,
     encode_words utils embeddings indices = Ok encoded ->
     layer_params parameters (Copy1.num_layers config) = Ok params ->
     circuit_final utils params (wires (Copy1.dev config lib))
                   (Copy1.num_layers config) target_word = Ok ansatz ->
     execute (Copy1.dev config lib)
             {| operations := encoded ++ ansatz;
                expval := PauliZ (Z.of_nat (Copy1.n_wires config - 1)) |}
     = Raise e ->
     Copy1.compute_overlap_words config utils lib
       parameters embeddings indices target_word w
     = (submitted {| operations := encoded ++ ansatz;
                     expval := PauliZ (Z.of_nat (Copy1.n_wires config - 1)) |} w,
        Raise e))
  /\
  (* cost *)
  (forall parameters missing_words i sentence w e,
     take (embeddings_reduced_norm g) sentence = Raise e ->
     Copy1.cost config utils lib g parameters [sentence] missing_words w
     = (w, Raise e) /\
     sentence_overlap config utils lib g parameters missing_words (i, sentence) w
     = (w, Raise e))
  /\
  (forall parameters missing_words i sentence embeddings w e,
     take (embeddings_reduced_norm g) sentence = Ok embeddings ->
     getitem (all_indices g) (Z.of_nat i) = Raise e ->
     sentence_overlap config utils lib g parameters missing_words (i, sentence) w
     = (w, Raise e))
  /\
  (forall parameters missing_words i sentence embeddings indices w e,
     take (embeddings_reduced_norm g) sentence = Ok embeddings ->
     getitem (all_indices g) (Z.of_nat i) = Ok indices ->
     getitem missing_words (Z.of_nat i) = Raise e ->
     sentence_overlap config utils lib g parameters missing_words (i, sentence) w
     = (w, Raise e))
  /\
  (forall parameters missing_words i sentence embeddings indices m_w w w' e,
     take (embeddings_reduced_norm g) sentence = Ok embeddings ->
     getitem (all_indices g) (Z.of_nat i) = Ok indices ->
     getitem missing_words (Z.of_nat i) = Ok m_w ->
     Copy1.compute_overlap_words config utils lib
       parameters embeddings indices m_w w = (w', Raise e) ->
     sentence_overlap config utils lib g parameters missing_words (i, sentence) w
     = (w', Raise e))
  /\
  (forall parameters pre sentence post missing_words w w1 terms w2 e,
     mapM (sentence_overlap config utils lib g parameters missing_words)
          (enumerate pre) w = (w1, Ok terms) ->
     sentence_overlap config utils lib g parameters missing_words
       (length pre, sentence) w1 = (w2, Raise e) ->
     Copy1.cost config utils lib g parameters (pre ++ sentence :: post)
       missing_words w = (w2, Raise e))
  /\
  (* the objective of a training step *)
  (forall batch parameters w e,
     take (sentences_truncated g) batch = Raise e ->
     Copy1.cost_batch config utils lib g batch parameters w = (w, Raise e))
  /\
  (forall batch parameters sentences w e,
     take (sentences_truncated g) batch = Ok sentences ->
     take (missing_word g) batch = Raise e ->
     Copy1.cost_batch config utils lib g batch parameters w = (w, Raise e))
  /\
  (forall batch parameters sentences missing_words w w' e,
     take (sentences_truncated g) batch = Ok sentences ->
     take (missing_word g) batch = Ok missing_words ->
     Copy1.cost config utils lib g parameters sentences missing_words w
     = (w', Raise e) ->
     Copy1.cost_batch config utils lib g batch parameters w = (w', Raise e))
  /\
  (* opt.step *)
  (forall objective_fn x w w' e,
     objective_fn x w = (w', Raise e) ->
     step lib objective_fn x w = (w', Raise e))
  /\
  (forall objective_fn x w w1 forward log e,
     objective_fn x w = (w1, Ok forward) ->
     backward lib x forward (executed w1) = (log, Raise e) ->
     step lib objective_fn x w =
     ({| parameters := parameters w1; opt := opt w1; executed := log;
         completed := completed w1 |}, Raise e))
  /\
  (* get_most_probable_word *)
  (forall sentence position look_in w e,
     position < Z.of_nat (Copy1.num_words config) ->
     take (embeddings_reduced_norm g) sentence = Raise e ->
     Copy1.get_most_probable_word config utils lib g sentence position look_in w
     = (w, Raise e))
  /\
  (forall sentence position look_in w embeddings_input e,
     position < Z.of_nat (Copy1.num_words config) ->
     take (embeddings_reduced_norm g) sentence = Ok embeddings_input ->
     candidates g look_in = Raise e ->
     Copy1.get_most_probable_word config utils lib g sentence position look_in w
     = (w, Raise e))
  /\
  (forall embeddings_input position probas index w e,
     getitem (embeddings_reduced_norm g) index = Raise e ->
     candidate_round config utils lib g embeddings_input position probas index w
     = (w, Raise e))
  /\
  (forall embeddings_input position probas index extra w,
     getitem (embeddings_reduced_norm g) index = Ok extra ->
     parameters w = None ->
     candidate_round config utils lib g embeddings_input position probas index w
     = (w, Raise NameError))
  /\
  (forall embeddings_input position probas index extra p w w' e,
     getitem (embeddings_reduced_norm g) index = Ok extra ->
     parameters w = Some p ->
     Copy1.compute_overlap_words config utils lib p (embeddings_input ++ [extra])
       (query_indices (Copy1.num_words config) position) position w
     = (w', Raise e) ->
     candidate_round config utils lib g embeddings_input position probas index w
     = (w', Raise e))
  /\
  (forall sentence position look_in w embeddings_input pre index post
          w1 probas w2 e,
     position < Z.of_nat (Copy1.num_words config) ->
     take (embeddings_reduced_norm g) sentence = Ok embeddings_input ->
     candidates g look_in = Ok (pre ++ index :: post) ->
     for_each (candidate_round config utils lib g embeddings_input position)
              pre [] w = (w1, Ok probas) ->
     candidate_round config utils lib g embeddings_input position probas index w1
     = (w2, Raise e) ->
     Copy1.get_most_probable_word config utils lib g sentence position look_in w
     = (w2, Raise e))
  /\
  (* the training cell *)
  (forall w pre i post w1 p w2 e,
     flat_map (fun _ => range (Copy1.N_batches g)) (range Copy1.epochs)
     = pre ++ i :: post ->
     for_each (fun _ i => Copy1.train_batch config utils lib g i) pre tt
              (training_start config lib w) = (w1, Ok tt) ->
     parameters w1 = Some p ->
     step lib (Copy1.cost_batch config utils lib g (Copy1.batch_of i)) p w1
     = (w2, Raise e) ->
     Copy1.training_cell config utils lib g w = (w2, Raise e) /\
     parameters w2 = Some p /\
     opt w2 = opt w1 /\
     completed w2 = completed w1).
Proof.
  repeat apply conj.
  - intros * H. unfold Preprocessing.run_cell. now rewrite H.
  - intros * H1 H. unfold Preprocessing.run_cell. now rewrite H1, H.
  - intros * H1 H2 H. unfold Preprocessing.run_cell. now rewrite H1, H2, H.
  - intros * H1 H2 H3 H. unfold Preprocessing.run_cell.
    rewrite H1, H2, H3. cbn [result_bind]. now rewrite H.
  - intros * H1 H2 H3 H4 H. unfold Preprocessing.run_cell.
    rewrite H1, H2, H3. cbn [result_bind]. rewrite H4. cbn [result_bind].
    now rewrite (pca_raises _ _ _ _ H).
  - intros * H1 H2 H3 H4 H5 H. unfold Preprocessing.run_cell.
    rewrite H1, H2, H3. cbn [result_bind]. rewrite H4. cbn [result_bind].
    rewrite H5. cbn [result_bind]. now rewrite H.
  - intros * H1 H2 H3 H4 H5 H6 H. unfold Preprocessing.run_cell.
    rewrite H1, H2, H3. cbn [result_bind]. rewrite H4. cbn [result_bind].
    rewrite H5. cbn [result_bind]. rewrite H6. cbn [result_bind]. now rewrite H.
  - intros * H1 H2 H3 H4 H5 H6 H7 H. unfold Preprocessing.run_cell.
    rewrite H1, H2, H3. cbn [result_bind]. rewrite H4. cbn [result_bind].
    rewrite H5. cbn [result_bind]. rewrite H6. cbn [result_bind].
    rewrite H7. cbn [result_bind]. now rewrite H.
  - intros * H. unfold Copy1.compute_overlap_words.
    now rewrite (bind_lift_raise _ _ _ _ H).
  - intros * H1 H. unfold Copy1.compute_overlap_words.
    now rewrite (bind_lift_ok _ _ _ _ H1), (bind_lift_raise _ _ _ _ H).
  - intros * H1 H2 H. unfold Copy1.compute_overlap_words.
    now rewrite (bind_lift_ok _ _ _ _ H1), (bind_lift_ok _ _ _ _ H2),
      (bind_lift_raise _ _ _ _ H).
  - intros * Henc Hpar Hcirc Hexec.
    rewrite (Copy1_compute_overlap_words_tape config utils lib _ _ _ _ _ _ _ w
               Henc Hpar Hcirc).
    now rewrite Hexec.
  - intros * H. split.
    + unfold Copy1.cost, enumerate. cbn [length seq combine for_each].
      rewrite bind_assoc. now rewrite (bind_lift_raise _ _ _ _ H).
    + unfold sentence_overlap. now rewrite (bind_lift_raise _ _ _ _ H).
  - intros * H1 H. unfold sentence_overlap.
    now rewrite (bind_lift_ok _ _ _ _ H1), (bind_lift_raise _ _ _ _ H).
  - intros * H1 H2 H. unfold sentence_overlap.
    now rewrite (bind_lift_ok _ _ _ _ H1), (bind_lift_ok _ _ _ _ H2),
      (bind_lift_raise _ _ _ _ H).
  - intros * H1 H2 H3 H. unfold sentence_overlap.
    now rewrite (bind_lift_ok _ _ _ _ H1), (bind_lift_ok _ _ _ _ H2),
      (bind_lift_ok _ _ _ _ H3).
  - intros * Hpre Hterm. rewrite Copy1_cost_as_sum.
    rewrite enumerate_app.
    now rewrite (bind_raise _ _ _ _ _ (mapM_raise _ _ _ _ _ _ _ _ _ Hpre Hterm)).
  - intros * H. unfold Copy1.cost_batch. now rewrite (bind_lift_raise _ _ _ _ H).
  - intros * H1 H. unfold Copy1.cost_batch.
    now rewrite (bind_lift_ok _ _ _ _ H1), (bind_lift_raise _ _ _ _ H).
  - intros * H1 H2 H. unfold Copy1.cost_batch.
    now rewrite (bind_lift_ok _ _ _ _ H1), (bind_lift_ok _ _ _ _ H2).
  - intros *. apply step_forward_raise.
  - intros *. apply step_backward_raise.
  - intros * Hpos H. rewrite Copy1_get_most_probable_word_unfold.
    apply Z.ltb_lt in Hpos. rewrite Hpos. unfold assert_.
    change (bind (ret tt) ?k w) with (k tt w). cbv beta.
    now rewrite (bind_lift_raise _ _ _ _ H).
  - intros * Hpos H1 H. rewrite Copy1_get_most_probable_word_unfold.
    apply Z.ltb_lt in Hpos. rewrite Hpos. unfold assert_.
    change (bind (ret tt) ?k w) with (k tt w). cbv beta.
    now rewrite (bind_lift_ok _ _ _ _ H1), (bind_lift_raise _ _ _ _ H).
  - intros * H. unfold candidate_round. now rewrite (bind_lift_raise _ _ _ _ H).
  - intros * H1 H. unfold candidate_round. rewrite (bind_lift_ok _ _ _ _ H1).
    unfold bind, read_parameters. now rewrite H.
  - intros * H1 H2 H. unfold candidate_round. rewrite (bind_lift_ok _ _ _ _ H1).
    unfold bind at 1, read_parameters. rewrite H2.
    now rewrite (bind_raise _ _ _ _ _ H).
  - intros * Hpos Hemb Hcs Hpre Hround.
    rewrite Copy1_get_most_probable_word_unfold.
    apply Z.ltb_lt in Hpos. rewrite Hpos. unfold assert_.
    change (bind (ret tt) ?k w) with (k tt w). cbv beta.
    rewrite (bind_lift_ok _ _ _ _ Hemb), (bind_lift_ok _ _ _ _ Hcs).
    exact (for_each_raise _ _ _ _ _ _ _ _ _ _ Hpre Hround).
  - intros * Hsplit Hpre Hp Hstep.
    rewrite training_cell_start, training_loop_flat, Hsplit.
    split.
    + exact (for_each_raise _ _ _ _ _ _ _ _ _ _ Hpre
               (train_batch_raise _ _ _ _ _ Hp Hstep)).
    + destruct (keeps_step
                  (Copy1.cost_batch config utils lib g (Copy1.batch_of i)) p
                  (keeps_cost_batch (Copy1.batch_of i)) w1) as [Hpar Hdone].
      rewrite Hstep in Hpar, Hdone. simpl in Hpar, Hdone.
      split; [congruence|]. split; [|congruence].
      exact (step_raise_keeps_optimizer _ _ _ _ _
               (keeps_optimizer_cost_batch (Copy1.batch_of i)) Hstep).
Qed.

End Copy1Training.

(** ** The application cell of the first copy *)

Lemma getitem_raises {A} (a : list A) i e :
  getitem a i = Raise e -> e = IndexError.
Proof.
  unfold getitem. destruct (normalize_index (length a) i) as [k|].
  - destruct (nth_error a k); [discriminate|now intros [= <-]].
  - now intros [= <-].
Qed.

Lemma map_result_raises {A B} (f : A -> result B) l e e0 :
  (forall x e', f x = Raise e' -> e' = e0) ->
  map_result f l = Raise e -> e = e0.
Proof.
  intros Hf. induction l as [|x rest IH]; simpl; [discriminate|].
  destruct (f x) as [y|e'] eqn:Hx; simpl.
  - destruct (map_result f rest) as [ys|e'']; simpl; [discriminate|].
    intros [= <-]. now apply IH.
  - intros [= <-]. now apply (Hf x).
Qed.

Lemma take_raises {A} (a : list A) ids e :
  take a ids = Raise e -> e = IndexError.
Proof. apply map_result_raises. intros x e'. apply getitem_raises. Qed.

Lemma layer_params_raises {Scalar} (p : Tensor3 Scalar) layers e :
  layer_params p layers = Raise e -> e = IndexError.
Proof.
  apply map_result_raises. intros i e'. unfold slice_head, slice_tail.
  destruct ((0 <? dim1 p)%nat && (i <? dim2 p)%nat); simpl;
    [|now intros [= <-]].
  destruct (i <? dim2 p)%nat; simpl; [discriminate|now intros [= <-]].
Qed.

Lemma candidates_raises {Scalar} (g : Globals Scalar) look_in e :
  candidates g look_in = Raise e -> e = IndexError \/ e = TypeError.
Proof.
  unfold candidates.
  destruct look_in as [[i|start stop|a]|]; simpl.
  - destruct (getitem (word_indices g) i) as [x|e'] eqn:Hx; simpl.
    + intros [= <-]. now right.
    + intros [= <-]. left. now apply getitem_raises in Hx.
  - discriminate.
  - intros [= <-]. now right.
  - intros [= <-]. now right.
Qed.

(** With an array between the brackets, [word_indices[look_in]] is a
    [TypeError]: the default [look_in] and the one the cell passes. *)
Lemma candidates_array {Scalar} (g : Globals Scalar) look_in :
  look_in = None \/ (exists a, look_in = Some (IxArray a)) ->
  candidates g look_in = Raise TypeError.
Proof. intros [->|[a ->]]; reflexivity. Qed.

Section NoAssertion.
Context {W : Type}.

Lemma no_assertion_ret {A} (a : A) : no_assertion (@ret W A a).
Proof. intros w e. discriminate. Qed.

Lemma no_assertion_lift {A} (r : result A) :
  r <> Raise AssertionError -> no_assertion (@lift W A r).
Proof. intros Hr w e. simpl. intros -> ->. now apply Hr. Qed.

Lemma no_assertion_bind {A B} (c : M W A) (k : A -> M W B) :
  no_assertion c -> (forall a, no_assertion (k a)) -> no_assertion (bind c k).
Proof.
  intros Hc Hk w e. unfold bind. specialize (Hc w).
  destruct (c w) as [w' [a|e']]; simpl in *.
  - apply Hk.
  - intros [= <-]. now apply Hc.
Qed.

Lemma no_assertion_for_each {A B} (body : B -> A -> M W B) l :
  (forall acc x, no_assertion (body acc x)) ->
  forall acc, no_assertion (for_each body l acc).
Proof.
  intros Hbody. induction l as [|x rest IH]; intros acc; simpl.
  - apply no_assertion_ret.
  - apply no_assertion_bind; auto.
Qed.
End NoAssertion.

Section Copy1Query.
Context {Scalar OptState Grad : Type}.
Variable config : Config.
Variable utils : Utils Scalar.
Variable lib : Library Scalar OptState Grad.
Variable g : Globals Scalar.

Lemma map_wires_raises (device_wires ws : list Z) e :
  map_wires device_wires ws = Raise e -> e = WireError.
Proof.
  unfold map_wires. destruct (forallb _ ws); [discriminate|now intros [= <-]].
Qed.

Lemma apply_operation_raises (norm_ok : list Scalar -> bool) device_wires
  (op : Operation Scalar) e :
  apply_operation norm_ok device_wires op = Raise e ->
  e = WireError \/ e = ValueError.
Proof.
  destruct op as [state ws|state ws|gate params ws]; simpl;
    unfold apply_state_vector, apply_basis_state;
    try (destruct (map_wires device_wires ws) as [[]|e'] eqn:Hw; simpl;
         [|intros [= <-]; left; now apply map_wires_raises in Hw]).
  - destruct (negb _); [intros [= <-]; now right|].
    destruct (negb _); [intros [= <-]; now right|discriminate].
  - destruct (negb _); [intros [= <-]; now right|].
    destruct (negb _); [intros [= <-]; now right|discriminate].
  - discriminate.
Qed.

Lemma apply_raises (norm_ok : list Scalar -> bool) device_wires
  (name : string) (ops : list (Operation Scalar)) : forall i e,
  apply norm_ok device_wires name i ops = Raise e -> e <> AssertionError.
Proof.
  induction ops as [|op rest IH]; intros i e; simpl; [discriminate|].
  destruct ((0 <? i)%nat && is_state_preparation op).
  - intros [= <-]. discriminate.
  - destruct (apply_operation norm_ok device_wires op) as [[]|e'] eqn:Hop; simpl.
    + apply IH.
    + intros [= <-]. apply apply_operation_raises in Hop as [->| ->];
        discriminate.
Qed.

Lemma no_assertion_compute_overlap_words parameters embeddings indices target_word :
  (forall e i, encode_words utils e i <> Raise AssertionError) ->
  (forall p ws n t, circuit_final utils p ws n t <> Raise AssertionError) ->
  no_assertion (Copy1.compute_overlap_words (OptState:=OptState) config utils lib
                  parameters embeddings indices target_word).
Proof.
  intros Henc Hcirc. unfold Copy1.compute_overlap_words.
  apply no_assertion_bind; [apply no_assertion_lift, Henc|intros encoded].
  apply no_assertion_bind; [apply no_assertion_lift|intros params].
  { intros H. apply layer_params_raises in H. discriminate. }
  apply no_assertion_bind; [apply no_assertion_lift, Hcirc|intros ansatz].
  apply no_assertion_bind; [apply no_assertion_lift|intros last].
  { intros H. apply getitem_raises in H. discriminate. }
  intros w e. unfold qnode_execute. simpl.
  destruct (apply _ _ _ 0 _) as [[]|e'] eqn:Happly; simpl.
  - destruct (map_wires _ [last]) as [[]|e'] eqn:Hw; simpl; [discriminate|].
    intros [= <-]. apply map_wires_raises in Hw. now subst.
  - intros [= <-]. now apply apply_raises in Happly.
Qed.

Lemma no_assertion_candidate_round embeddings_input position probas index :
  (forall e i, encode_words utils e i <> Raise AssertionError) ->
  (forall p ws n t, circuit_final utils p ws n t <> Raise AssertionError) ->
  no_assertion (candidate_round config utils lib g embeddings_input position
                  probas index).
Proof.
  intros Henc Hcirc. unfold candidate_round.
  apply no_assertion_bind; [apply no_assertion_lift|intros extra].
  { intros H. apply getitem_raises in H. discriminate. }
  apply no_assertion_bind; [|intros parameters].
  { intros w e. unfold read_parameters. destruct (parameters w); simpl;
      [discriminate|]. intros [= <-]. discriminate. }
  apply no_assertion_bind;
    [now apply no_assertion_compute_overlap_words|intros overlap].
  apply no_assertion_ret.
Qed.

Lemma no_assertion_query_body sentence position look_in :
  (forall e i, encode_words utils e i <> Raise AssertionError) ->
  (forall p ws n t, circuit_final utils p ws n t <> Raise AssertionError) ->
  no_assertion
    (embeddings_input <- lift (take (embeddings_reduced_norm g) sentence) ;;
     cs <- lift (candidates g look_in) ;;
     for_each (candidate_round config utils lib g embeddings_input position)
              cs []).
Proof.
  intros Henc Hcirc.
  apply no_assertion_bind; [apply no_assertion_lift|intros embeddings_input].
  { intros H. apply take_raises in H. discriminate. }
  apply no_assertion_bind; [apply no_assertion_lift|intros cs].
  { intros H. apply candidates_raises in H as [H|H]; discriminate. }
  apply no_assertion_for_each. intros probas index.
  now apply no_assertion_candidate_round.
Qed.

(** C10. [get_most_probable_word] raises [AssertionError] exactly when its
    position is not smaller than [num_words] (the quantum functions of
    utils.py being taken to raise no [AssertionError] of their own); and
    then the kernel is as it was: no tape has been handed to a device and
    no probability has been computed. *)
Theorem C10_assertion_guards_position sentence position look_in w :
  (forall e i, encode_words utils e i <> Raise AssertionError) ->
  (forall p ws n t, circuit_final utils p ws n t <> Raise AssertionError) ->
  (snd (Copy1.get_most_probable_word config utils lib g
          sentence position look_in w) = Raise AssertionError
   <-> ~ position < Z.of_nat (Copy1.num_words config))
  /\
  (~ position < Z.of_nat (Copy1.num_words config) ->
   Copy1.get_most_probable_word config utils lib g sentence position look_in w
   = (w, Raise AssertionError)).
Proof.
  intros Henc Hcirc.
  assert (Hfail : ~ position < Z.of_nat (Copy1.num_words config) ->
                  Copy1.get_most_probable_word config utils lib g
                    sentence position look_in w = (w, Raise AssertionError)).
  { intros Hpos. rewrite Copy1_get_most_probable_word_unfold.
    replace (position <? Z.of_nat (Copy1.num_words config)) with false
      by (symmetry; apply Z.ltb_ge; lia).
    reflexivity. }
  split; [split|exact Hfail].
  - intros Hraise Hpos. revert Hraise.
    rewrite Copy1_get_most_probable_word_unfold.
    apply Z.ltb_lt in Hpos. rewrite Hpos.
    unfold assert_. change (bind (ret tt) ?k w) with (k tt w). cbv beta.
    intros Hraise.
    now apply (no_assertion_query_body sentence position look_in Henc Hcirc w)
      in Hraise.
  - intros Hpos. now rewrite (Hfail Hpos).
Qed.

(** C4, as the code has it. A call whose position passes the assertion,
    with [look_in] left to its default or given as a NumPy integer array,
    never returns its list and computes no probability: it raises
    [IndexError] when the sentence holds a word id outside
    [embeddings_reduced_norm] (that look-up comes first), and otherwise
    [TypeError] from [word_indices[look_in]]. *)
Theorem C4_query_raises_before_any_probability sentence position look_in w :
  position < Z.of_nat (Copy1.num_words config) ->
  look_in = None \/ (exists a, look_in = Some (IxArray a)) ->
  ((exists rows, take (embeddings_reduced_norm g) sentence = Ok rows) /\
   Copy1.get_most_probable_word config utils lib g sentence position look_in w
   = (w, Raise TypeError))
  \/
  (take (embeddings_reduced_norm g) sentence = Raise IndexError /\
   Copy1.get_most_probable_word config utils lib g sentence position look_in w
   = (w, Raise IndexError)).
Proof.
  intros Hpos Hlook. rewrite Copy1_get_most_probable_word_unfold.
  apply Z.ltb_lt in Hpos. rewrite Hpos.
  unfold assert_. change (bind (ret tt) ?k w) with (k tt w). cbv beta.
  destruct (take (embeddings_reduced_norm g) sentence) as [rows|e] eqn:Htake.
  - left. split; [now exists rows|].
    rewrite (bind_lift_ok _ _ _ _ eq_refl).
    now rewrite (bind_lift_raise _ _ _ _ (candidates_array g look_in Hlook)).
  - right. pose proof (take_raises _ _ _ Htake) as ->. split; reflexivity.
Qed.
End Copy1Query.

(** C3 (the code at the notebook's own query). With seven words per
    sentence the assertion on position 4 passes, the six words are found in
    the vocabulary, ten candidate positions are drawn, and the call stops at
    [word_indices[look_in]] with [TypeError]: no tape reaches a device, no
    probability is computed and nothing is printed. *)
Example C3_query_cell_raises_TypeError :
  Copy1.query_cell Demo.config7 Demo.utils Demo.lib Demo.globals Demo.world
  = (Demo.world, Raise TypeError).
Proof. reflexivity. Qed.

(** With an index that a Python list accepts (here the slice [[:]]) the
    same function, on the second copy's device, returns one probability
    per candidate word: the loop is written for a working index. *)
Example query_with_a_slice_returns_probabilities :
  Copy2.get_most_probable_word Demo.config Demo.utils Demo.lib Demo.globals
    [0] 1 (Some (IxSlice None None))
    {| parameters := Some (np_random_rand Demo.lib 1 2 1); opt := tt;
       executed := []; completed := [] |}
  = ({| parameters := Some (np_random_rand Demo.lib 1 2 1); opt := tt;
        executed :=
          [ {| operations := [QubitStateVector [1; 0] [0];
                              QubitStateVector [1; 0] [2];
                              Unitary "RY" [1] [3]];
               expval := PauliZ 3 |};
            {| operations := [QubitStateVector [1; 0] [0];
                              QubitStateVector [0; 1] [2];
                              Unitary "RY" [1] [3]];
               expval := PauliZ 3 |} ];
        completed := [] |},
     Ok [3; 3]).
Proof. reflexivity. Qed.

(** C4 as worded fails: a sentence holding a word id that is no row of
    [embeddings_reduced_norm] passes the assertion and raises [IndexError],
    not [TypeError]. *)
Lemma C4_counterexample_unknown_word_id :
  0 < Z.of_nat (Copy1.num_words Demo.config) /\
  Copy1.get_most_probable_word Demo.config Demo.utils Demo.lib Demo.globals
    [5] 0 None Demo.world = (Demo.world, Raise IndexError) /\
  snd (Copy1.get_most_probable_word Demo.config Demo.utils Demo.lib Demo.globals
         [5] 0 None Demo.world) <> Raise TypeError.
Proof. split; [reflexivity|split; [reflexivity|discriminate]]. Qed.

(** ** The two copies *)

Section Copies.
Context {Scalar OptState Grad : Type}.
Variable config : Config.
Variable utils : Utils Scalar.
Variable lib : Library Scalar OptState Grad.
Variable g : Globals Scalar.
Hypothesis same_device :
  forall tape, execute (Copy1.dev config lib) tape
               = execute (Copy2.dev config lib) tape.

Lemma bind_cong {W A B} (c c' : M W A) (k k' : A -> M W B) w :
  c w = c' w -> (forall a w', k a w' = k' a w') -> bind c k w = bind c' k' w.
Proof.
  intros Hc Hk. unfold bind. rewrite Hc.
  destruct (c' w) as [w' [a|e]]; auto.
Qed.

Lemma copies_compute_overlap_words parameters embeddings indices target_word w :
  Copy1.compute_overlap_words config utils lib
    parameters embeddings indices target_word w =
  Copy2.compute_overlap_words config utils lib
    parameters embeddings indices target_word w.
Proof.
  unfold Copy1.compute_overlap_words, Copy2.compute_overlap_words.
  apply bind_cong; [reflexivity|intros encoded w1].
  apply bind_cong; [reflexivity|intros params w2].
  apply bind_cong; [reflexivity|intros ansatz w3].
  apply bind_cong; [reflexivity|intros last w4].
  unfold qnode_execute. now rewrite same_device.
Qed.

Lemma copies_cost parameters sentences missing_words w :
  Copy1.cost config utils lib g parameters sentences missing_words w =
  Copy2.cost config utils lib g parameters sentences missing_words w.
Proof.
  unfold Copy1.cost, Copy2.cost. apply for_each_ext.
  intros acc [i sentence] w'.
  apply bind_cong; [reflexivity|intros embeddings w1].
  apply bind_cong; [reflexivity|intros indices w2].
  apply bind_cong; [reflexivity|intros m_w w3].
  apply bind_cong; [apply copies_compute_overlap_words|reflexivity].
Qed.

Lemma copies_cost_batch batch parameters w :
  Copy1.cost_batch config utils lib g batch parameters w =
  Copy2.cost_batch config utils lib g batch parameters w.
Proof.
  unfold Copy1.cost_batch, Copy2.cost_batch.
  apply bind_cong; [reflexivity|intros sentences w1].
  apply bind_cong; [reflexivity|intros missing_words w2].
  apply copies_cost.
Qed.

Lemma step_ext (f f' : Tensor3 Scalar -> M (World Scalar OptState) Scalar) x w :
  (forall p w', f p w' = f' p w') -> step lib f x w = step lib f' x w.
Proof. intros H. unfold step. apply bind_cong; [apply H|reflexivity]. Qed.

Lemma copies_training_cell w :
  Copy1.training_cell config utils lib g w =
  Copy2.training_cell config utils lib g w.
Proof.
  unfold Copy1.training_cell, Copy2.training_cell.
  apply bind_cong; [reflexivity|intros _ w1].
  apply bind_cong; [reflexivity|intros _ w2].
  unfold Copy1.training_loop, Copy2.training_loop.
  apply for_each_ext. intros _ epoch w3.
  apply for_each_ext. intros _ i w4.
  unfold Copy1.train_batch, Copy2.train_batch.
  apply bind_cong; [reflexivity|intros current w5].
  apply bind_cong; [|reflexivity].
  apply step_ext. intros p w'. apply copies_cost_batch.
Qed.

Lemma copies_get_most_probable_word sentence position look_in w :
  Copy1.get_most_probable_word config utils lib g sentence position look_in w =
  Copy2.get_most_probable_word config utils lib g sentence position look_in w.
Proof.
  unfold Copy1.get_most_probable_word, Copy2.get_most_probable_word.
  apply bind_cong; [reflexivity|intros _ w1].
  apply bind_cong; [reflexivity|intros embeddings_input w2].
  apply bind_cong; [reflexivity|intros cs w3].
  apply for_each_ext. intros probas index w4.
  apply bind_cong; [reflexivity|intros extra w5].
  apply bind_cong; [reflexivity|intros parameters w6].
  apply bind_cong; [apply copies_compute_overlap_words|reflexivity].
Qed.

(** C5. The two copies differ only in the device their QNode is bound to
    (the local [default.qubit] simulator in the first, the remote Braket
    device in the second, both on the same wires): when the two devices
    answer every tape alike, the QNode, [cost], the training cell,
    [get_most_probable_word] and the query of the application cell of the
    first copy are equal to those of the second, on every input and from
    every kernel state. *)
Theorem C5_copies_agree :
  (forall parameters embeddings indices target_word w,
     Copy1.compute_overlap_words config utils lib
       parameters embeddings indices target_word w =
     Copy2.compute_overlap_words config utils lib
       parameters embeddings indices target_word w) /\
  (forall parameters sentences missing_words w,
     Copy1.cost config utils lib g parameters sentences missing_words w =
     Copy2.cost config utils lib g parameters sentences missing_words w) /\
  (forall w,
     Copy1.training_cell config utils lib g w =
     Copy2.training_cell config utils lib g w) /\
  (forall sentence position look_in w,
     Copy1.get_most_probable_word config utils lib g sentence position look_in w =
     Copy2.get_most_probable_word config utils lib g sentence position look_in w) /\
  (forall w,
     Copy1.query_cell config utils lib g w = Copy2.query_cell config utils lib g w)
  /\
  Copy1.dev config lib
  = default_qubit (is_normalized lib) (simulate lib) (Copy1.n_wires config) /\
  short_name (Copy2.dev config lib) = "braket.aws.qubit"%string /\
  execute (Copy2.dev config lib) = braket_execute lib /\
  wires (Copy1.dev config lib) = wires (Copy2.dev config lib).
Proof.
  split; [|split; [|split; [|split; [|split; [|repeat split]]]]].
  - apply copies_compute_overlap_words.
  - apply copies_cost.
  - apply copies_training_cell.
  - apply copies_get_most_probable_word.
  - intros w. unfold Copy1.query_cell, Copy2.query_cell.
    apply bind_cong; [reflexivity|intros [list_index missing_index] w1].
    apply bind_cong; [reflexivity|intros look_in w2].
    apply bind_cong; [apply copies_get_most_probable_word|reflexivity].
Qed.
End Copies.

(** ** Preprocessing: the masking data *)

Lemma nth_error_middle {A} (pre : list A) x post :
  nth_error (pre ++ x :: post) (length pre) = Some x.
Proof. rewrite nth_error_app2, Nat.sub_diag by lia. reflexivity. Qed.

Lemma replace_nth_middle {A} (pre : list A) x v post :
  replace_nth (length pre) v (pre ++ x :: post) = pre ++ v :: post.
Proof. induction pre as [|y rest IH]; simpl; [reflexivity|now rewrite IH]. Qed.

Lemma length_replace_nth {A} (a : list A) : forall k v,
  length (replace_nth k v a) = length a.
Proof.
  induction a as [|x rest IH]; intros k v; simpl; [reflexivity|].
  destruct k; simpl; [reflexivity|now rewrite IH].
Qed.

Lemma nth_error_replace_nth {A} (a : list A) : forall k v j,
  (k < length a)%nat ->
  nth_error (replace_nth k v a) j =
  if (j =? k)%nat then Some v else nth_error a j.
Proof.
  induction a as [|x rest IH]; intros k v j Hk; simpl in *; [lia|].
  destruct k as [|k]; destruct j as [|j]; simpl; try reflexivity.
  apply IH. lia.
Qed.

Lemma setitem_nonneg {A} (a : list A) (k : nat) v :
  (k < length a)%nat -> setitem a (Z.of_nat k) v = Ok (replace_nth k v a).
Proof. intros Hk. unfold setitem. now rewrite normalize_index_nonneg. Qed.

Lemma nth_error_arange (n j : nat) :
  (j < n)%nat -> nth_error (arange 0 (Z.of_nat n)) j = Some (Z.of_nat j).
Proof.
  intros Hj. unfold arange.
  replace (Z.to_nat (Z.of_nat n - 0)) with n by lia.
  rewrite nth_error_map, nth_error_seq.
  replace (j <? n)%nat with true by (symmetry; apply Nat.ltb_lt; lia).
  simpl. f_equal.
Qed.

Section Masks.
Variable config : Config.
Variable randint : Z -> Z -> nat -> list Z.

Lemma length_marked_row n m : length (marked_row n m) = n.
Proof. unfold marked_row. rewrite length_replace_nth, length_arange. lia. Qed.

(** The marking loop, started in the middle: the rows before [done_rows]
    are marked already, the others still hold the plain [arange]. *)
Lemma mark_loop (n : nat) : forall todo done_m done_rows,
  length done_m = length done_rows ->
  Forall (fun m => 0 <= m < Z.of_nat n) todo ->
  Preprocessing.fold_result
    (fun all_indices i =>
       result_bind (getitem (done_m ++ todo) (Z.of_nat i)) (fun m =>
       setitem2 all_indices (Z.of_nat i) m (Z.of_nat n)))
    (seq (length done_rows) (length todo))
    (done_rows ++ repeat (arange 0 (Z.of_nat n)) (length todo))
  = Ok (done_rows ++ map (marked_row n) todo).
Proof.
  induction todo as [|m rest IH]; intros done_m done_rows Hlen Hok.
  - reflexivity.
  - inversion Hok as [|? ? Hm Hrest]; subst.
    cbn [length seq repeat Preprocessing.fold_result map].
    rewrite (getitem_nonneg (done_m ++ m :: rest) (length done_rows) m)
      by (rewrite <- Hlen; apply nth_error_middle).
    cbn [result_bind]. unfold setitem2.
    rewrite (getitem_nonneg _ (length done_rows) (arange 0 (Z.of_nat n)))
      by apply nth_error_middle.
    cbn [result_bind].
    replace m with (Z.of_nat (Z.to_nat m)) at 1 by lia.
    rewrite setitem_nonneg by (rewrite length_arange; lia).
    cbn [result_bind].
    rewrite setitem_nonneg by (rewrite length_app; simpl; lia).
    cbn [result_bind]. rewrite replace_nth_middle.
    fold (marked_row n m).
    specialize (IH (done_m ++ [m]) (done_rows ++ [marked_row n m])).
    rewrite !length_app, <- !app_assoc in IH. simpl in IH.
    rewrite !Nat.add_1_r in IH.
    apply IH; [lia|exact Hrest].
Qed.

Lemma nth_error_marked_row n m j :
  0 <= m < Z.of_nat n -> (j < n)%nat ->
  nth_error (marked_row n m) j =
  Some (if Z.of_nat j =? m then Z.of_nat n else Z.of_nat j).
Proof.
  intros Hm Hj. unfold marked_row.
  rewrite nth_error_replace_nth by (rewrite length_arange; lia).
  rewrite nth_error_arange by exact Hj.
  destruct (Nat.eqb_spec j (Z.to_nat m)) as [->|Hne].
  - replace (Z.of_nat (Z.to_nat m) =? m) with true
      by (symmetry; apply Z.eqb_eq; lia).
    reflexivity.
  - replace (Z.of_nat j =? m) with false
      by (symmetry; apply Z.eqb_neq; lia).
    reflexivity.
Qed.

(** C7. After preprocessing, every sentence index [i] has a
    missing-word position in [[0, num_words)], and its row of
    [all_indices] is [0, 1, ..., max_length - 1] except at that position,
    where it holds [max_length]: exactly one position of the row is marked.
    ([randint] is NumPy's generator, taken with its contract: as many
    draws as asked, each within the bounds.) *)
Theorem C7_masking_is_well_formed (sentences : list (list Z)) :
  (0 < Preprocessing.num_words config)%nat ->
  (forall low high n, low < high ->
     length (randint low high n) = n /\
     Forall (fun x => low <= x < high) (randint low high n)) ->
  exists mw ai,
    Preprocessing.missing_word config randint sentences = Ok mw /\
    Preprocessing.all_indices config sentences mw = Ok ai /\
    length mw = length sentences /\
    length ai = length sentences /\
    forall i, (i < length sentences)%nat ->
      exists m row,
        nth_error mw i = Some m /\
        0 <= m < Z.of_nat (Preprocessing.num_words config) /\
        nth_error ai i = Some row /\
        row = marked_row (Preprocessing.max_length config) m /\
        length row = Preprocessing.max_length config /\
        (forall j, (j < Preprocessing.max_length config)%nat ->
           nth_error row j =
           Some (if Z.of_nat j =? m
                 then Z.of_nat (Preprocessing.max_length config)
                 else Z.of_nat j)) /\
        (forall j, (j < Preprocessing.max_length config)%nat ->
           (nth_error row j = Some (Z.of_nat (Preprocessing.max_length config))
            <-> Z.of_nat j = m)).
Proof.
  intros Hwords Hrand.
  set (n := length sentences).
  set (L := Preprocessing.max_length config).
  destruct (Hrand 0 (Z.of_nat (Preprocessing.num_words config)) n) as [Hlen Hok];
    [lia|].
  set (mw := randint 0 (Z.of_nat (Preprocessing.num_words config)) n) in *.
  exists mw, (map (marked_row L) mw).
  assert (Hmw : Preprocessing.missing_word config randint sentences = Ok mw).
  { unfold Preprocessing.missing_word. fold n.
    destruct (Nat.eqb_spec n 0) as [Hn|Hn].
    - f_equal. symmetry. apply length_zero_iff_nil. lia.
    - replace (0 <? Z.of_nat (Preprocessing.num_words config)) with true
        by (symmetry; apply Z.ltb_lt; lia).
      reflexivity. }
  split; [exact Hmw|]. split; [|split; [exact Hlen|split]].
  - unfold Preprocessing.all_indices, range. fold n. fold L. rewrite <- Hlen.
    exact (mark_loop L mw [] [] eq_refl Hok).
  - now rewrite length_map.
  - intros i Hi.
    destruct (nth_error mw i) as [m|] eqn:Hm;
      [|apply nth_error_None in Hm; lia].
    assert (Hrange : 0 <= m < Z.of_nat L).
    { apply nth_error_In in Hm. rewrite Forall_forall in Hok.
      now apply Hok in Hm. }
    exists m, (marked_row L m). split; [reflexivity|]. split; [exact Hrange|].
    split; [now rewrite nth_error_map, Hm|].
    split; [reflexivity|].
    split; [apply length_marked_row|].
    split.
    + intros j Hj. now apply nth_error_marked_row.
    + intros j Hj. rewrite (nth_error_marked_row L m j Hrange Hj).
      destruct (Z.eqb_spec (Z.of_nat j) m) as [Heq|Hne].
      * tauto.
      * split; [|tauto]. intros [= Habs]. lia.
Qed.
End Masks.

(** ** Preprocessing: the normalised embeddings *)



Section AssignMasked.
Context {A : Type}.
Variable width : nat.

Lemma assign_masked_length (mask : list bool) : forall (a b c : list (list A)),
  Preprocessing.assign_masked width mask a b = Ok c ->
  length a = length mask /\ length c = length mask.
Proof.
  induction mask as [|m mask IH]; intros a b c H.
  - destruct a; [|discriminate]. destruct b; [|discriminate].
    injection H as <-. now split.
  - destruct a as [|x a]; [now destruct m|].
    destruct m; simpl in H.
    + destruct b as [|row b]; [discriminate|].
      destruct (length row =? width)%nat; [|discriminate].
      destruct (Preprocessing.assign_masked width mask a b) as [rest|e] eqn:Hrest;
        [|discriminate].
      injection H as <-. apply IH in Hrest as [Ha Hc]. simpl. split; lia.
    + destruct (Preprocessing.assign_masked width mask a b) as [rest|e] eqn:Hrest;
        [|discriminate].
      injection H as <-. apply IH in Hrest as [Ha Hc]. simpl. split; lia.
Qed.

Lemma assign_masked_selected (mask : list bool) : forall (a b c : list (list A)) i,
  Preprocessing.assign_masked width mask a b = Ok c ->
  nth_error mask i = Some true ->
  exists row, nth_error c i = Some row /\
              nth_error b (selected_before mask i) = Some row /\
              length row = width.
Proof.
  induction mask as [|m mask IH]; intros a b c i H Hi.
  - destruct i; discriminate.
  - destruct a as [|x a]; [now destruct m|].
    destruct m; simpl in H.
    + destruct b as [|row b]; [discriminate|].
      destruct (length row =? width)%nat eqn:Hw; [|discriminate].
      destruct (Preprocessing.assign_masked width mask a b) as [rest|e] eqn:Hrest;
        [|discriminate].
      injection H as <-. destruct i as [|i]; simpl in *.
      * exists row. apply Nat.eqb_eq in Hw. auto.
      * eapply IH; eauto.
    + destruct (Preprocessing.assign_masked width mask a b) as [rest|e] eqn:Hrest;
        [|discriminate].
      injection H as <-. destruct i as [|i]; simpl in *; [discriminate|].
      eapply IH; eauto.
Qed.

Lemma assign_masked_unselected (mask : list bool) : forall (a b c : list (list A)) i,
  Preprocessing.assign_masked width mask a b = Ok c ->
  nth_error mask i = Some false ->
  nth_error c i = nth_error a i.
Proof.
  induction mask as [|m mask IH]; intros a b c i H Hi.
  - destruct i; discriminate.
  - destruct a as [|x a]; [now destruct m|].
    destruct m; simpl in H.
    + destruct b as [|row b]; [discriminate|].
      destruct (length row =? width)%nat; [|discriminate].
      destruct (Preprocessing.assign_masked width mask a b) as [rest|e] eqn:Hrest;
        [|discriminate].
      injection H as <-. destruct i as [|i]; simpl in *; [discriminate|].
      eapply IH; eauto.
    + destruct (Preprocessing.assign_masked width mask a b) as [rest|e] eqn:Hrest;
        [|discriminate].
      injection H as <-. destruct i as [|i]; simpl in *; [reflexivity|].
      eapply IH; eauto.
Qed.
End AssignMasked.

Section Normalisation.
Variable norm_axis1 : list float -> float.


End Normalisation.

Lemma select_In {A} (mask : list bool) : forall (a : list A) x,
  In x (Preprocessing.select mask a) -> In x a.
Proof.
  induction mask as [|b mask IH]; intros a x Hx; [contradiction|].
  destruct a as [|y a]; [now destruct b|].
  destruct b; simpl in *.
  - destruct Hx as [->|Hx]; auto.
  - auto.
Qed.

Lemma nth_error_zeros rows cols i :
  (i < rows)%nat ->
  nth_error (Preprocessing.zeros rows cols) i = Some (repeat 0%float cols).
Proof. intros Hi. unfold Preprocessing.zeros. now apply nth_error_repeat. Qed.

Section Embeddings.
Variable config : Config.
Variable pca_fit_transform :
  nat -> list (list float) -> result (list (list float)).
Variable norm_axis1 : list float -> float.

Lemma nth_error_norms_positive embeddings i e :
  nth_error embeddings i = Some e ->
  nth_error (Preprocessing.norms_positive norm_axis1 embeddings) i
  = Some (Preprocessing.positive (norm_axis1 e)).
Proof.
  intros He. unfold Preprocessing.norms_positive.
  now rewrite nth_error_map, He.
Qed.

Lemma embeddings_reduced_shape embeddings reduced :
  Preprocessing.embeddings_reduced config pca_fit_transform norm_axis1 embeddings
  = Ok reduced ->
  length reduced = length embeddings /\
  Forall (fun row => length row = Preprocessing.n_dim config) reduced.
Proof.
  unfold Preprocessing.embeddings_reduced.
  destruct (pca_fit_transform _ _) as [X|e]; [|discriminate]. simpl.
  intros H.
  pose proof (assign_masked_length _ _ _ _ _ H) as [_ Hlen].
  unfold Preprocessing.norms_positive in Hlen. rewrite length_map in Hlen.
  split; [exact Hlen|].
  apply Forall_forall. intros row Hrow.
  apply In_nth_error in Hrow as [i Hi].
  assert (Hin : (i < length embeddings)%nat)
    by (rewrite <- Hlen; apply nth_error_Some; congruence).
  destruct (nth_error embeddings i) as [e|] eqn:He;
    [|apply nth_error_None in He; lia].
  pose proof (nth_error_norms_positive _ _ _ He) as Hmask.
  destruct (Preprocessing.positive (norm_axis1 e)).
  - destruct (assign_masked_selected _ _ _ _ _ _ H Hmask) as [r [Hr [_ Hw]]].
    congruence.
  - rewrite (assign_masked_unselected _ _ _ _ _ _ H Hmask) in Hi.
    rewrite nth_error_zeros in Hi by exact Hin.
    injection Hi as <-. apply repeat_length.
Qed.

End Embeddings.


(* ===================================================================== *)
(** * The statements at work on the concrete notebook                     *)
(* ===================================================================== *)


Lemma C2_witness :
  Copy1.compute_overlap_words Demo.config Demo.utils Demo.lib
    (np_random_rand Demo.lib 1 2 1) [[1; 0]; [0; 1]] [2; 1] 0 Demo.world =
  (submitted {| operations := [QubitStateVector [1; 0] [2];
                               QubitStateVector [0; 1] [1];
                               Unitary "RY" [1] [3]];
                expval := PauliZ 3 |} Demo.world,
   Raise (DeviceError "QubitStateVector" "default.qubit.autograd")).
Proof.
  exact (proj2 (C2_cost_is_sum_of_overlaps Demo.config Demo.utils Demo.lib
                  Demo.globals)
           (np_random_rand Demo.lib 1 2 1) [[1; 0]; [0; 1]] [2; 1] 0
           [QubitStateVector [1; 0] [2]; QubitStateVector [0; 1] [1]]
           [([1], [[1]])] [Unitary "RY" [1] [3]] Demo.world
           eq_refl eq_refl eq_refl).
Defined.

Lemma C4_witness :
  ((exists rows, take (embeddings_reduced_norm Demo.globals) [0; 1] = Ok rows) /\
   Copy1.get_most_probable_word Demo.config Demo.utils Demo.lib Demo.globals
     [0; 1] 0 None Demo.world = (Demo.world, Raise TypeError))
  \/
  (take (embeddings_reduced_norm Demo.globals) [0; 1] = Raise IndexError /\
   Copy1.get_most_probable_word Demo.config Demo.utils Demo.lib Demo.globals
     [0; 1] 0 None Demo.world = (Demo.world, Raise IndexError)).
Proof.
  apply (C4_query_raises_before_any_probability Demo.config Demo.utils Demo.lib
           Demo.globals [0; 1] 0 None Demo.world).
  - reflexivity.
  - left. reflexivity.
Defined.

Lemma C5_witness :
  Copy1.cost Demo.config Demo.utils Demo.mirror_lib Demo.globals
    (np_random_rand Demo.lib 1 2 1) [[0; 1]] [0] Demo.world =
  Copy2.cost Demo.config Demo.utils Demo.mirror_lib Demo.globals
    (np_random_rand Demo.lib 1 2 1) [[0; 1]] [0] Demo.world.
Proof.
  apply (proj1 (proj2 (C5_copies_agree Demo.config Demo.utils Demo.mirror_lib
                         Demo.globals (fun tape => eq_refl)))).
Defined.


Lemma Demo_randint_low_contract low high n :
  low < high ->
  length (Demo.randint_low low high n) = n /\
  Forall (fun x => low <= x < high) (Demo.randint_low low high n).
Proof.
  intros Hlt. unfold Demo.randint_low. split; [apply repeat_length|].
  apply Forall_forall. intros x Hx. apply repeat_spec in Hx. lia.
Qed.

Lemma C7_witness :
  exists mw ai,
    Preprocessing.missing_word Demo.config Demo.randint_low [[0; 1]; [1; 2]]
    = Ok mw /\
    Preprocessing.all_indices Demo.config [[0; 1]; [1; 2]] mw = Ok ai /\
    length mw = 2%nat /\
    length ai = 2%nat /\
    forall i, (i < 2)%nat ->
      exists m row,
        nth_error mw i = Some m /\
        0 <= m < 2 /\
        nth_error ai i = Some row /\
        row = marked_row 2 m /\
        length row = 2%nat /\
        (forall j, (j < 2)%nat ->
           nth_error row j = Some (if Z.of_nat j =? m then 2 else Z.of_nat j)) /\
        (forall j, (j < 2)%nat ->
           (nth_error row j = Some 2 <-> Z.of_nat j = m)).
Proof.
  apply (C7_masking_is_well_formed Demo.config Demo.randint_low
           [[0; 1]; [1; 2]]).
  - simpl. lia.
  - exact Demo_randint_low_contract.
Defined.


Lemma C9_witness :
  let w1 := training_start Demo.config Demo.lib Demo.world in
  let p := np_random_rand Demo.lib 1 2 1 in
  let w2 := fst (step Demo.lib
                   (Copy1.cost_batch Demo.config Demo.utils Demo.lib Demo.globals
                      (Copy1.batch_of 0)) p w1) in
  (Copy1.training_cell Demo.config Demo.utils Demo.lib Demo.globals Demo.world
   = (w2, Raise (DeviceError "QubitStateVector" "default.qubit.autograd")) /\
   parameters w2 = Some p /\
   opt w2 = opt w1 /\
   completed w2 = completed w1) /\
  Preprocessing.run_cell Demo.config Demo.pca_identity Demo.norm64 Demo.norm64
    Demo.randint_low Demo2.no_vocabulary_file = Raise OSError.
Proof.
  intros w1 p w2.
  pose proof (C9_exceptions_propagate Demo.config Demo.utils Demo.lib
                Demo.globals) as H.
  split.
  - do 28 (destruct H as [_ H]).
    apply (H Demo.world [] O [1; 0; 1]%nat w1 p w2
             (DeviceError "QubitStateVector" "default.qubit.autograd")).
    + reflexivity.
    + reflexivity.
    + reflexivity.
    + reflexivity.
  - do 6 (destruct H as [_ H]). destruct H as [H _].
    apply (H Demo.pca_identity Demo.norm64 Demo.norm64 Demo.randint_low
             Demo2.no_vocabulary_file Demo.embeddings Demo2.sentences []
             [0; 0] Demo.normalised [[2; 1]; [2; 1]] OSError).
    + reflexivity.
    + reflexivity.
    + reflexivity.
    + reflexivity.
    + reflexivity.
    + reflexivity.
    + reflexivity.
Defined.

Lemma C10_witness :
  (snd (Copy1.get_most_probable_word Demo.config Demo.utils Demo.lib Demo.globals
          [0; 1] 4 None Demo.world) = Raise AssertionError
   <-> ~ 4 < Z.of_nat (Copy1.num_words Demo.config))
  /\
  (~ 4 < Z.of_nat (Copy1.num_words Demo.config) ->
   Copy1.get_most_probable_word Demo.config Demo.utils Demo.lib Demo.globals
     [0; 1] 4 None Demo.world = (Demo.world, Raise AssertionError)).
Proof.
  apply (C10_assertion_guards_position Demo.config Demo.utils Demo.lib
           Demo.globals [0; 1] 4 None Demo.world).
  - intros e i. discriminate.
  - intros p ws n t. discriminate.
Defined.

(* ===================================================================== *)
(** * Further properties of the cells                                     *)
(* ===================================================================== *)

(** ** Tapes handed to a device *)

Section RunsTapes.
Context {Scalar OptState : Type}.

Lemma with_tapes_nil (w : World Scalar OptState) : with_tapes w [] = w.
Proof. destruct w. unfold with_tapes. simpl. now rewrite app_nil_r. Qed.

Lemma with_tapes_app (w : World Scalar OptState) t1 t2 :
  with_tapes (with_tapes w t1) t2 = with_tapes w (t1 ++ t2).
Proof. unfold with_tapes. simpl. now rewrite app_assoc. Qed.

Lemma runs_ret {A} (a : A) : runs_tapes 0 (@ret (World Scalar OptState) A a).
Proof.
  intros w. exists []. simpl. rewrite with_tapes_nil. repeat split; auto.
Qed.

Lemma runs_lift {A} (r : result A) :
  runs_tapes 0 (@lift (World Scalar OptState) A r).
Proof.
  intros w. exists []. simpl. rewrite with_tapes_nil. repeat split; auto.
Qed.

Lemma runs_read_parameters : runs_tapes 0 (@read_parameters Scalar OptState).
Proof.
  intros w. exists []. unfold read_parameters.
  destruct (parameters w); simpl; rewrite with_tapes_nil; repeat split; auto.
Qed.

Lemma runs_assert (c : bool) : runs_tapes 0 (@assert_ (World Scalar OptState) c).
Proof. destruct c; [apply runs_ret|]. intros w. exists []. simpl.
  rewrite with_tapes_nil. repeat split; auto. Qed.

Lemma runs_qnode_execute (dev : Device Scalar) tape :
  runs_tapes 1 (@qnode_execute Scalar OptState dev tape).
Proof. intros w. exists [tape]. simpl. repeat split; auto. Qed.

Lemma runs_bind {A B} k1 k2 (c : M (World Scalar OptState) A)
  (f : A -> M (World Scalar OptState) B) :
  runs_tapes k1 c -> (forall a, runs_tapes k2 (f a)) ->
  runs_tapes (k1 + k2) (bind c f).
Proof.
  intros Hc Hf w. unfold bind.
  destruct (Hc w) as [t1 [Hw1 [Hle1 Hok1]]].
  destruct (c w) as [w1 [a|e]]; simpl in *.
  - subst w1. specialize (Hok1 a eq_refl).
    destruct (Hf a (with_tapes w t1)) as [t2 [Hw2 [Hle2 Hok2]]].
    exists (t1 ++ t2). rewrite Hw2, with_tapes_app, length_app.
    split; [reflexivity|]. split; [lia|].
    intros b Hb. rewrite (Hok2 b Hb). lia.
  - exists t1. split; [exact Hw1|]. split; [lia|]. discriminate.
Qed.

Lemma runs_for_each {A B} (body : B -> A -> M (World Scalar OptState) B) l :
  (forall acc x, runs_tapes 1 (body acc x)) ->
  forall acc, runs_tapes (length l) (for_each body l acc).
Proof.
  intros Hbody. induction l as [|x rest IH]; intros acc; simpl.
  - apply runs_ret.
  - apply (runs_bind 1 (length rest)); auto.
Qed.
End RunsTapes.

Section Copy1Tapes.
Context {Scalar OptState Grad : Type}.
Variable config : Config.
Variable utils : Utils Scalar.
Variable lib : Library Scalar OptState Grad.
Variable g : Globals Scalar.

Lemma runs_compute_overlap_words parameters embeddings indices target_word :
  runs_tapes 1 (Copy1.compute_overlap_words (OptState:=OptState) config utils lib
                  parameters embeddings indices target_word).
Proof.
  unfold Copy1.compute_overlap_words.
  apply (runs_bind 0 1); [apply runs_lift|intros encoded].
  apply (runs_bind 0 1); [apply runs_lift|intros params].
  apply (runs_bind 0 1); [apply runs_lift|intros ansatz].
  apply (runs_bind 0 1); [apply runs_lift|intros last].
  apply runs_qnode_execute.
Qed.

(** X1. [cost] hands one tape per sentence to the device: exactly
    [len(sentences)] tapes when it returns, fewer or as many when it
    raises; and it changes nothing else of the kernel ([parameters], the
    optimizer, the completed batches). *)
Theorem cost_runs_one_tape_per_sentence parameters sentences missing_words w :
  exists tapes,
    fst (Copy1.cost config utils lib g parameters sentences missing_words w)
    = with_tapes w tapes /\
    (length tapes <= length sentences)%nat /\
    (forall value,
       snd (Copy1.cost config utils lib g parameters sentences missing_words w)
       = Ok value ->
       length tapes = length sentences).
Proof.
  assert (H : runs_tapes (length (enumerate sentences))
                (Copy1.cost config utils lib g parameters sentences missing_words)).
  { unfold Copy1.cost. apply runs_for_each. intros acc [i sentence].
    apply (runs_bind 0 1); [apply runs_lift|intros embeddings].
    apply (runs_bind 0 1); [apply runs_lift|intros indices].
    apply (runs_bind 0 1); [apply runs_lift|intros m_w].
    apply (runs_bind 1 0); [apply runs_compute_overlap_words|intros overlap].
    apply runs_ret. }
  unfold enumerate in H.
  rewrite length_combine, length_seq, Nat.min_id in H.
  exact (H w).
Qed.

Lemma runs_candidate_round embeddings_input position probas index :
  runs_tapes 1 (candidate_round config utils lib g embeddings_input position
                  probas index).
Proof.
  unfold candidate_round.
  apply (runs_bind 0 1); [apply runs_lift|intros extra].
  apply (runs_bind 0 1); [apply runs_read_parameters|intros parameters].
  apply (runs_bind 1 0); [apply runs_compute_overlap_words|intros overlap].
  apply runs_ret.
Qed.

Lemma candidate_round_appends embeddings_input position probas index w w' r :
  candidate_round config utils lib g embeddings_input position probas index w
  = (w', Ok r) ->
  length r = S (length probas).
Proof.
  unfold candidate_round, bind, lift, ret.
  destruct (getitem _ index); [|discriminate].
  destruct (read_parameters w) as [w1 [p|e]]; [|discriminate].
  destruct (Copy1.compute_overlap_words _ _ _ _ _ _ _ w1) as [w2 [v|e]];
    [|discriminate].
  intros [= _ <-]. rewrite length_app. simpl. lia.
Qed.

Lemma candidate_loop_length embeddings_input position cs : forall probas w w' r,
  for_each (candidate_round config utils lib g embeddings_input position)
           cs probas w = (w', Ok r) ->
  length r = (length probas + length cs)%nat.
Proof.
  induction cs as [|c rest IH]; intros probas w w' r; simpl.
  - intros [= _ <-]. lia.
  - unfold bind.
    destruct (candidate_round _ _ _ _ _ _ probas c w) as [w1 [acc|e]] eqn:Hround;
      [|discriminate].
    intros Hrest. apply IH in Hrest.
    apply candidate_round_appends in Hround. lia.
Qed.

(** X2. When [get_most_probable_word] returns, it has run one circuit
    and computed one probability per candidate word of
    [word_indices[look_in]], and has changed nothing else of the
    kernel. *)
Theorem query_returns_one_probability_per_candidate
  sentence position look_in w w' probas :
  Copy1.get_most_probable_word config utils lib g sentence position look_in w
  = (w', Ok probas) ->
  exists cs tapes,
    candidates g look_in = Ok cs /\
    length probas = length cs /\
    w' = with_tapes w tapes /\
    length tapes = length cs.
Proof.
  rewrite Copy1_get_most_probable_word_unfold. unfold bind at 1.
  destruct (position <? Z.of_nat (Copy1.num_words config)); [|discriminate].
  cbn [assert_ ret]. unfold bind at 1, lift at 1.
  destruct (take (embeddings_reduced_norm g) sentence) as [rows|e];
    [|discriminate].
  unfold bind at 1, lift at 1.
  destruct (candidates g look_in) as [cs|e]; [|discriminate].
  intros Hloop. exists cs.
  destruct (runs_for_each
              (candidate_round config utils lib g rows position) cs
              (runs_candidate_round rows position) [] w)
    as [tapes [Hw [_ Hok]]].
  rewrite Hloop in Hw, Hok. simpl in Hw, Hok.
  exists tapes. split; [reflexivity|].
  split; [apply candidate_loop_length in Hloop; simpl in Hloop; lia|].
  split; [exact Hw|]. now apply (Hok probas).
Qed.
End Copy1Tapes.

(** ** The application cell, whatever the data *)

Lemma dict_get_raises {K V} (eqb : K -> K -> bool) (d : list (K * V)) k e :
  dict_get eqb d k = Raise e -> e = KeyError.
Proof.
  induction d as [|[k' v] rest IH]; simpl.
  - now intros [= <-].
  - destruct (eqb k' k); [discriminate|exact IH].
Qed.

Section Copy1QueryCell.
Context {Scalar OptState Grad : Type}.
Variable config : Config.
Variable utils : Utils Scalar.
Variable lib : Library Scalar OptState Grad.
Variable g : Globals Scalar.

(** The loop that looks the words of the query up in [vocab] touches
    nothing, and can only fail with [KeyError]. *)
Lemma vocabulary_loop_outcome (items : list (nat * string)) :
  forall (acc : list Z * nat) (w : World Scalar OptState),
    exists r,
      for_each (fun '(list_index, missing_index) '(i, word) =>
                  if String.eqb word "[mask]"
                  then ret (list_index, i)
                  else id <- lift (dict_get String.eqb (vocab g) word) ;;
                       ret (list_index ++ [id], missing_index))
               items acc w = (w, r) /\
      (forall e, r = Raise e -> e = KeyError).
Proof.
  induction items as [|[i word] rest IH]; intros [list_index missing_index] w.
  - exists (Ok (list_index, missing_index)). split; [reflexivity|discriminate].
  - cbn [for_each]. destruct (String.eqb word "[mask]").
    + exact (IH (list_index, i) w).
    + unfold bind at 1. unfold bind at 1, lift at 1.
      destruct (dict_get String.eqb (vocab g) word) as [id|e] eqn:Hget.
      * exact (IH (list_index ++ [id], missing_index) w).
      * exists (Raise e). split; [reflexivity|].
        intros e' [= <-]. now apply dict_get_raises in Hget.
Qed.

Lemma query_with_array_outcome sentence position a (w : World Scalar OptState) :
  exists e,
    Copy1.get_most_probable_word config utils lib g sentence position
      (Some (IxArray a)) w = (w, Raise e) /\
    (e = AssertionError \/ e = IndexError \/ e = TypeError).
Proof.
  rewrite Copy1_get_most_probable_word_unfold. unfold bind at 1.
  destruct (position <? Z.of_nat (Copy1.num_words config)).
  - cbn [assert_ ret]. unfold bind at 1, lift at 1.
    destruct (take (embeddings_reduced_norm g) sentence) as [rows|e] eqn:Htake.
    + exists TypeError. split; [reflexivity|tauto].
    + exists e. split; [reflexivity|]. apply take_raises in Htake. tauto.
  - exists AssertionError. split; [reflexivity|tauto].
Qed.

(** X3. Whatever the configuration, the vocabulary and the embeddings,
    the statements of the application cell end in an exception and leave
    the kernel as it was: [KeyError] for a query word that is not in
    [vocab], [ValueError] when [word_indices] is empty, [AssertionError]
    when [num_words <= 4], [IndexError] for a word id outside the
    embeddings, and otherwise [TypeError].  No tape reaches a device and
    nothing is printed. *)
Theorem query_cell_always_raises (w : World Scalar OptState) :
  exists e,
    Copy1.query_cell config utils lib g w = (w, Raise e) /\
    (e = KeyError \/ e = ValueError \/ e = AssertionError \/
     e = IndexError \/ e = TypeError).
Proof.
  unfold Copy1.query_cell.
  destruct (vocabulary_loop_outcome (enumerate Copy1.list_words) ([], O) w)
    as [r [Hloop Hkey]].
  unfold bind at 1. rewrite Hloop.
  destruct r as [[list_index missing_index]|e].
  - unfold bind at 1, lift at 1.
    destruct (np_random_randint lib _ 10) as [look_in|e] eqn:Hrand.
    + destruct (query_with_array_outcome list_index 4 look_in w)
        as [e [Hquery He]].
      exists e. unfold bind. rewrite Hquery. split; [reflexivity|tauto].
    + exists e. split; [reflexivity|].
      unfold np_random_randint in Hrand.
      destruct (0 <? _); [discriminate|]. injection Hrand as <-. tauto.
  - exists e. split; [reflexivity|]. left. now apply Hkey.
Qed.

(** Reading [a[i]] at a non-negative Python integer. *)
Lemma getitem_of_nat {A} (a : list A) (i : nat) :
  getitem a (Z.of_nat i) =
  match nth_error a i with
  | Some x => Ok x
  | None => Raise IndexError
  end.
Proof.
  destruct (nth_error a i) as [x|] eqn:Hx.
  - now apply getitem_nonneg.
  - apply getitem_beyond. apply nth_error_None in Hx. lia.
Qed.

Lemma firstn_nth_error_eq {A} (a b : list A) n i :
  firstn n a = firstn n b -> (i < n)%nat -> nth_error a i = nth_error b i.
Proof.
  intros Heq Hi.
  assert (H : nth_error (firstn n a) i = nth_error (firstn n b) i)
    by now rewrite Heq.
  rewrite !nth_error_firstn in H.
  replace (i <? n)%nat with true in H by (symmetry; apply Nat.ltb_lt; lia).
  exact H.
Qed.
End Copy1QueryCell.

(** ** Which index rows a training step reads *)

Lemma for_each_ext_in {W A B} (body body' : B -> A -> M W B) l :
  (forall acc x w, In x l -> body acc x w = body' acc x w) ->
  forall acc w, for_each body l acc w = for_each body' l acc w.
Proof.
  induction l as [|x rest IH]; intros Hbody acc w; simpl.
  - reflexivity.
  - unfold bind. rewrite Hbody by now left.
    destruct (body' acc x w) as [w' [a|e]]; [|reflexivity].
    apply IH. intros acc' y w'' Hy. apply Hbody. now right.
Qed.

Lemma in_enumerate {A} (l : list A) i x :
  In (i, x) (enumerate l) -> (i < length l)%nat.
Proof.
  unfold enumerate. intros H. apply in_combine_l in H.
  apply in_seq in H. lia.
Qed.

Lemma length_map_result {A B} (f : A -> result B) l : forall ys,
  map_result f l = Ok ys -> length ys = length l.
Proof.
  induction l as [|x rest IH]; intros ys; simpl.
  - now intros [= <-].
  - destruct (f x) as [y|e]; [|discriminate]. simpl.
    destruct (map_result f rest) as [ys'|e]; [|discriminate]. simpl.
    intros [= <-]. simpl. now rewrite (IH ys').
Qed.

Section IndexRows.
Context {Scalar OptState Grad : Type}.
Variable config : Config.
Variable utils : Utils Scalar.
Variable lib : Library Scalar OptState Grad.

Lemma cost_reads_leading_rows (g g' : Globals Scalar)
  parameters sentences missing_words w :
  embeddings_reduced_norm g = embeddings_reduced_norm g' ->
  firstn (length sentences) (all_indices g)
  = firstn (length sentences) (all_indices g') ->
  Copy1.cost config utils lib g parameters sentences missing_words w =
  Copy1.cost config utils lib g' parameters sentences missing_words w.
Proof.
  intros Hemb Hrows. unfold Copy1.cost. apply for_each_ext_in.
  intros acc [i sentence] w' Hin. apply in_enumerate in Hin.
  rewrite Hemb, !getitem_of_nat.
  now rewrite (firstn_nth_error_eq _ _ _ _ Hrows Hin).
Qed.

(** X4. A training step on the batch [batch] reads [all_indices] only
    in its first [len(batch)] rows (row [i] for the [i]-th sentence of the
    batch, not the row of that sentence's own index): two notebooks that
    agree on these rows, on the sentences, on the missing words and on the
    embeddings have the same [cost_batch], whatever the rest of
    [all_indices] holds. *)
Theorem cost_batch_reads_leading_index_rows (g g' : Globals Scalar)
  batch parameters w :
  embeddings_reduced_norm g = embeddings_reduced_norm g' ->
  sentences_truncated g = sentences_truncated g' ->
  missing_word g = missing_word g' ->
  firstn (length batch) (all_indices g) = firstn (length batch) (all_indices g') ->
  Copy1.cost_batch config utils lib g batch parameters w =
  Copy1.cost_batch config utils lib g' batch parameters w.
Proof.
  intros Hemb Hsent Hmiss Hrows. unfold Copy1.cost_batch.
  rewrite <- Hsent, <- Hmiss. unfold bind at 1 3, lift at 1 3.
  destruct (take (sentences_truncated g) batch) as [sentences|e] eqn:Htake;
    [|reflexivity].
  unfold bind at 1 2, lift at 1 2.
  destruct (take (missing_word g) batch) as [missing_words|e]; [|reflexivity].
  apply cost_reads_leading_rows; [exact Hemb|].
  now rewrite (length_map_result _ _ _ Htake).
Qed.
End IndexRows.

(** ** Batches and bounds *)

Lemma map_of_nat_shift a : forall n s,
  map (fun k => Z.of_nat a + Z.of_nat k) (seq s n) = map Z.of_nat (seq (a + s) n).
Proof.
  induction n as [|n IH]; intros s; simpl; [reflexivity|].
  rewrite IH. f_equal; [lia|]. now rewrite Nat.add_succ_r.
Qed.

Lemma arange_of_nat a n :
  arange (Z.of_nat a) (Z.of_nat (a + n)) = map Z.of_nat (seq a n).
Proof.
  unfold arange.
  replace (Z.to_nat (Z.of_nat (a + n) - Z.of_nat a)) with n by lia.
  rewrite map_of_nat_shift. now rewrite Nat.add_0_r.
Qed.

(** [a[np.arange(s, s + n)]] is the block of [n] rows from row [s] on,
    when the array has that many rows. *)
Lemma take_arange_block {A} (a : list A) s n :
  (s + n <= length a)%nat ->
  take a (arange (Z.of_nat s) (Z.of_nat (s + n))) = Ok (firstn n (skipn s a)) /\
  length (firstn n (skipn s a)) = n.
Proof.
  intros Hlen. split.
  - rewrite arange_of_nat.
    pose proof (take_seq_prefix (skipn s a) (firstn s a) n) as H.
    rewrite firstn_skipn, firstn_length_le in H by lia.
    apply H. rewrite length_skipn. lia.
  - apply firstn_length_le. rewrite length_skipn. lia.
Qed.

Section Batches.
Context {Scalar : Type}.
Variable g : Globals Scalar.

(** X5. For every batch number the training loop runs through,
    [sentences_truncated[batch]] never leaves the array: it is the block
    of ten consecutive sentences starting at sentence [10 i] (and so is
    [missing_word[batch]] when there is one missing word per sentence). *)
Theorem batch_lookups_stay_in_bounds i :
  (i < Copy1.N_batches g)%nat ->
  length (Copy1.batch_of i) = 10%nat /\
  take (sentences_truncated g) (Copy1.batch_of i)
  = Ok (firstn 10 (skipn (10 * i) (sentences_truncated g))) /\
  length (firstn 10 (skipn (10 * i) (sentences_truncated g))) = 10%nat /\
  (length (missing_word g) = length (sentences_truncated g) ->
   take (missing_word g) (Copy1.batch_of i)
   = Ok (firstn 10 (skipn (10 * i) (missing_word g)))).
Proof.
  intros Hi. unfold Copy1.N_batches, Copy1.batch_size in Hi.
  assert (Hfit : (10 * i + 10 <= length (sentences_truncated g))%nat).
  { pose proof (Nat.div_mod_eq (length (sentences_truncated g)) 10). lia. }
  assert (Hbatch : Copy1.batch_of i
                   = arange (Z.of_nat (10 * i)) (Z.of_nat (10 * i + 10))).
  { unfold Copy1.batch_of, Copy1.batch_size. f_equal; lia. }
  rewrite Hbatch.
  split; [rewrite arange_of_nat, length_map, length_seq; reflexivity|].
  destruct (take_arange_block (sentences_truncated g) (10 * i) 10 Hfit)
    as [Htake Hlen].
  split; [exact Htake|]. split; [exact Hlen|].
  intros Hsame. apply take_arange_block. lia.
Qed.

(** X6. Within one epoch the batches cover the sentences below
    [10 * N_batches] exactly once: every such index lies in the batch of
    one batch number, and in no other. *)
Theorem batches_cover_each_sentence_once j :
  0 <= j < 10 * Z.of_nat (Copy1.N_batches g) ->
  exists i,
    (i < Copy1.N_batches g)%nat /\
    In j (Copy1.batch_of i) /\
    forall i', In j (Copy1.batch_of i') -> i' = i.
Proof.
  intros Hj. exists (Z.to_nat (j / 10)).
  assert (Hdiv : 10 * (j / 10) <= j < 10 * (j / 10) + 10).
  { pose proof (Z.div_mod j 10 ltac:(lia)).
    pose proof (Z.mod_pos_bound j 10 ltac:(lia)). lia. }
  assert (Hq : 0 <= j / 10) by (apply Z.div_pos; lia).
  split; [|split].
  - assert (j / 10 < Z.of_nat (Copy1.N_batches g))
      by (apply Z.div_lt_upper_bound; lia).
    lia.
  - rewrite Copy1_batch_of_arange. apply in_arange. lia.
  - intros i' Hin. rewrite Copy1_batch_of_arange in Hin.
    apply in_arange in Hin. lia.
Qed.
End Batches.

Section ShortData.
Context {Scalar OptState Grad : Type}.
Variable config : Config.
Variable utils : Utils Scalar.
Variable lib : Library Scalar OptState Grad.
Variable g : Globals Scalar.

(** X7. With fewer than ten sentences there is no full batch: the
    training cell returns without a single optimizer step.  [parameters]
    is the random array the cell drew, the optimizer is as constructed, no
    tape has been handed to a device and no batch has completed. *)
Theorem training_without_a_full_batch (w : World Scalar OptState) :
  (length (sentences_truncated g) < 10)%nat ->
  Copy1.training_cell config utils lib g w
  = ({| parameters :=
          Some (np_random_rand lib (Copy1.qbits_per_word config)
                  ((Copy1.num_words config + 1) / 2 + 1)
                  (Copy1.num_layers config));
        opt := AdamOptimizer lib;
        executed := executed w;
        completed := completed w |}, Ok tt).
Proof.
  intros Hshort. rewrite training_cell_start, training_loop_flat.
  unfold Copy1.N_batches, Copy1.batch_size.
  rewrite Nat.div_small by exact Hshort.
  reflexivity.
Qed.
End ShortData.

(** ** The layer parameters *)

Lemma map_result_nth {A B} (f : A -> result B) l : forall ys i y,
  map_result f l = Ok ys -> nth_error ys i = Some y ->
  exists x, nth_error l i = Some x /\ f x = Ok y.
Proof.
  induction l as [|x rest IH]; intros ys i y; simpl.
  - intros [= <-]. now destruct i.
  - destruct (f x) as [y0|e] eqn:Hx; [|discriminate]. simpl.
    destruct (map_result f rest) as [ys'|e]; [|discriminate]. simpl.
    intros [= <-]. destruct i as [|i]; simpl.
    + intros [= <-]. now exists x.
    + intros Hy. now apply (IH ys').
Qed.

Lemma map_result_raises_at {A B} (f : A -> result B) l x e :
  In x l -> f x = Raise e -> exists e', map_result f l = Raise e'.
Proof.
  induction l as [|x0 rest IH]; intros Hin Hx; [contradiction|]. simpl.
  destruct Hin as [->|Hin].
  - rewrite Hx. now exists e.
  - destruct (f x0) as [y|e0]; [|now exists e0]. simpl.
    destruct (IH Hin Hx) as [e' ->]. now exists e'.
Qed.

(** X9. Slicing the parameters into layers: [layer_params] returns
    exactly when no layer is asked for, or the middle axis is not empty and
    the array has at least [num_layers] layers; otherwise it raises
    [IndexError].  What it returns has one pair per layer: a vector with
    one entry per row of the array (its middle index 0), and a matrix with
    one row per row of the array and one column per remaining middle
    index. *)
Theorem layer_params_bounds_and_shape {Scalar : Type} (p : Tensor3 Scalar)
  (num_layers : nat) :
  ((exists params, layer_params p num_layers = Ok params) <->
   (num_layers = 0 \/ (0 < dim1 p /\ num_layers <= dim2 p))%nat) /\
  (forall e, layer_params p num_layers = Raise e -> e = IndexError) /\
  (forall params, layer_params p num_layers = Ok params ->
     length params = num_layers /\
     forall i h t, nth_error params i = Some (h, t) ->
       h = map (fun q => entry p q 0%nat i) (range (dim0 p)) /\
       length h = dim0 p /\
       length t = dim0 p /\
       Forall (fun row => length row = (dim1 p - 1)%nat) t).
Proof.
  split; [|split].
  - split.
    + intros [params Hok].
      destruct num_layers as [|n]; [now left|right].
      assert (Hfirst : In O (range (S n))) by (apply in_seq; lia).
      assert (Hlast : In n (range (S n))) by (apply in_seq; lia).
      destruct ((0 <? dim1 p)%nat) eqn:Hd1.
      * apply Nat.ltb_lt in Hd1. split; [exact Hd1|].
        destruct (Nat.ltb_spec n (dim2 p)) as [Hlt|Hge]; [lia|].
        destruct (map_result_raises_at
                    (fun i => result_bind (slice_head p i) (fun h =>
                              result_bind (slice_tail p i) (fun t => Ok (h, t))))
                    (range (S n)) n IndexError Hlast) as [e' He'].
        { unfold slice_head.
          replace (n <? dim2 p)%nat with false
            by (symmetry; apply Nat.ltb_ge; lia).
          now rewrite andb_false_r. }
        unfold layer_params in Hok. congruence.
      * destruct (map_result_raises_at
                    (fun i => result_bind (slice_head p i) (fun h =>
                              result_bind (slice_tail p i) (fun t => Ok (h, t))))
                    (range (S n)) O IndexError Hfirst) as [e' He'].
        { unfold slice_head. now rewrite Hd1. }
        unfold layer_params in Hok. congruence.
    + intros [->|[Hd1 Hlayers]]; [now exists []|].
      apply map_result_ok. intros i Hi. apply in_seq in Hi.
      unfold slice_head, slice_tail.
      replace (0 <? dim1 p)%nat with true by (symmetry; apply Nat.ltb_lt; lia).
      replace (i <? dim2 p)%nat with true by (symmetry; apply Nat.ltb_lt; lia).
      simpl. eexists. reflexivity.
  - apply layer_params_raises.
  - intros params Hok. split.
    + unfold layer_params, range in Hok. apply length_map_result in Hok.
      now rewrite Hok, length_seq.
    + intros i h t Hnth.
      destruct (map_result_nth _ _ _ _ _ Hok Hnth) as [k [Hk Hslice]].
      assert (k = i) as ->.
      { unfold range in Hk. rewrite nth_error_seq in Hk.
        destruct (i <? num_layers)%nat; [|discriminate].
        simpl in Hk. congruence. }
      unfold slice_head, slice_tail in Hslice.
      destruct ((0 <? dim1 p)%nat && (i <? dim2 p)%nat); [|discriminate].
      simpl in Hslice.
      destruct (i <? dim2 p)%nat; [|discriminate]. simpl in Hslice.
      injection Hslice as <- <-.
      unfold range. rewrite !length_map, length_seq.
      repeat split; try reflexivity.
      apply Forall_forall. intros row Hrow.
      apply in_map_iff in Hrow as [q [<- _]].
      now rewrite length_map, length_seq.
Qed.

(** ** The index list of a query *)

Lemma filter_keeps_all {A} (f : A -> bool) (l : list A) :
  (forall x, In x l -> f x = true) -> filter f l = l.
Proof.
  induction l as [|x rest IH]; intros H; simpl; [reflexivity|].
  rewrite (H x (or_introl eq_refl)). f_equal. apply IH.
  intros y Hy. apply H. now right.
Qed.

Lemma filter_drops_position (n k : nat) :
  (k < n)%nat ->
  filter (fun i => negb (i =? Z.of_nat k)) (map Z.of_nat (range n))
  = map Z.of_nat (seq 0 k) ++ map Z.of_nat (seq (S k) (n - S k)).
Proof.
  intros Hk. unfold range.
  replace n with (k + S (n - S k))%nat at 1 by lia.
  rewrite seq_app, map_app, filter_app. cbn [seq map filter Nat.add].
  replace (Z.of_nat k =? Z.of_nat k) with true by (symmetry; apply Z.eqb_refl).
  cbn [negb]. f_equal; apply filter_keeps_all; intros x Hx;
    apply in_map_iff in Hx as [j [<- Hj]]; apply in_seq in Hj;
    apply negb_true_iff, Z.eqb_neq; lia.
Qed.

(** X10. The index list that [get_most_probable_word] builds, for a
    position that passes the assertion: it holds every register number
    from 0 to [num_words] except the position, in increasing order.  For a
    position from 0 on it has [num_words] entries; a negative position
    passes the assertion too, and then nothing is left out: the list has
    [num_words + 1] entries. *)
Theorem query_indices_skip_the_position (num_words : nat) (position : Z) :
  position < Z.of_nat num_words ->
  (forall i, In i (query_indices num_words position) <->
             0 <= i <= Z.of_nat num_words /\ i <> position) /\
  (0 <= position ->
   query_indices num_words position
   = map Z.of_nat (seq 0 (Z.to_nat position))
     ++ map Z.of_nat (seq (S (Z.to_nat position))
                          (S num_words - S (Z.to_nat position))) /\
   length (query_indices num_words position) = num_words) /\
  (position < 0 ->
   query_indices num_words position = map Z.of_nat (range (S num_words)) /\
   length (query_indices num_words position) = S num_words).
Proof.
  intros Hpos. split; [|split].
  - intros i. unfold query_indices, range.
    rewrite in_app_iff, filter_In, in_map_iff, negb_true_iff, Z.eqb_neq.
    split.
    + intros [[[k [<- Hk]] Hne]|[<-|[]]].
      * apply in_seq in Hk. lia.
      * lia.
    + intros [Hi Hne].
      destruct (Z.eq_dec i (Z.of_nat num_words)) as [->|Hn].
      * right. now left.
      * left. split; [|exact Hne]. exists (Z.to_nat i).
        split; [lia|]. apply in_seq. lia.
  - intros H0. unfold query_indices.
    assert (Hk : position = Z.of_nat (Z.to_nat position)) by lia.
    revert Hpos Hk. generalize (Z.to_nat position) as k. intros k Hpos ->.
    rewrite filter_drops_position by lia.
    rewrite <- app_assoc.
    assert (Hlast :
              map Z.of_nat (seq (S k) (num_words - S k)) ++ [Z.of_nat num_words]
              = map Z.of_nat (seq (S k) (S num_words - S k))).
    { replace (S num_words - S k)%nat with (num_words - S k + 1)%nat by lia.
      rewrite seq_app, map_app. cbn [seq map]. do 3 f_equal. lia. }
    rewrite Hlast. split; [reflexivity|].
    rewrite length_app, !length_map, !length_seq. lia.
  - intros Hneg. unfold query_indices.
    rewrite filter_keeps_all.
    + unfold range. rewrite seq_S, map_app. split; [reflexivity|].
      rewrite length_app, length_map, length_seq. simpl. lia.
    + intros x Hx. apply in_map_iff in Hx as [j [<- _]].
      apply negb_true_iff, Z.eqb_neq. lia.
Qed.

(** ** Preprocessing: masks, the dictionary and the globals *)

Lemma select_assign_masked {A} (width : nat) (mask : list bool) :
  forall (a b c : list (list A)),
    Preprocessing.assign_masked width mask a b = Ok c ->
    Preprocessing.select mask c = b /\ length b = count_selected mask.
Proof.
  unfold count_selected.
  induction mask as [|m mask IH]; intros a b c H.
  - destruct a; [|discriminate]. destruct b; [|discriminate].
    injection H as <-. now split.
  - destruct a as [|x a]; [now destruct m|].
    destruct m; simpl in H.
    + destruct b as [|row b]; [discriminate|].
      destruct (length row =? width)%nat; [|discriminate].
      destruct (Preprocessing.assign_masked width mask a b) as [rest|e] eqn:Hrest;
        [|discriminate].
      injection H as <-. apply IH in Hrest as [Hsel Hlen].
      simpl. split; [now rewrite Hsel|now rewrite Hlen].
    + destruct (Preprocessing.assign_masked width mask a b) as [rest|e] eqn:Hrest;
        [|discriminate].
      injection H as <-. apply IH in Hrest as [Hsel Hlen].
      simpl. now split.
Qed.

(** X11. Writing through a boolean mask and reading back: when
    [embeddings_reduced] is computed, the rows it holds at the embeddings
    of positive norm are, in order, exactly the rows that PCA returned
    (one per such embedding, each with [n_dim] entries), and every other
    row is the zero vector. *)
Theorem reduced_rows_are_the_pca_rows (config : Config)
  (pca_fit_transform : nat -> list (list float) -> result (list (list float)))
  (norm_axis1 : list float -> float)
  (embeddings reduced : list (list float)) :
  Preprocessing.embeddings_reduced config pca_fit_transform norm_axis1 embeddings
  = Ok reduced ->
  let mask := Preprocessing.norms_positive norm_axis1 embeddings in
  exists X,
    pca_fit_transform (Preprocessing.n_dim config)
                      (Preprocessing.select mask embeddings) = Ok X /\
    Preprocessing.select mask reduced = X /\
    length X = count_selected mask /\
    Forall (fun row => length row = Preprocessing.n_dim config) X /\
    forall i, nth_error mask i = Some false ->
              nth_error reduced i
              = Some (repeat 0%float (Preprocessing.n_dim config)).
Proof.
  intros Hred mask.
  destruct (embeddings_reduced_shape _ _ _ _ _ Hred) as [Hlen Hrows].
  unfold Preprocessing.embeddings_reduced in Hred. fold mask in Hred.
  destruct (pca_fit_transform _ _) as [X|e]; [|discriminate].
  cbn [result_bind] in Hred. exists X. split; [reflexivity|].
  destruct (select_assign_masked _ _ _ _ _ Hred) as [Hsel Hcount].
  split; [exact Hsel|]. split; [exact Hcount|]. split.
  - apply Forall_forall. intros row Hrow. rewrite <- Hsel in Hrow.
    apply select_In in Hrow. rewrite Forall_forall in Hrows. auto.
  - intros i Hi.
    rewrite (assign_masked_unselected _ _ _ _ _ _ Hred Hi).
    apply nth_error_zeros.
    assert (i < length mask)%nat by (apply nth_error_Some; congruence).
    unfold mask, Preprocessing.norms_positive in *.
    now rewrite length_map in *.
Qed.

Section Dictionary.
Context {V : Type}.

Lemma dict_set_entries (d : list (Z * V)) k v k' v' :
  In (k', v') (Preprocessing.dict_set Z.eqb d k v) ->
  (k' = k /\ v' = v) \/ In (k', v') d.
Proof.
  induction d as [|[k0 v0] rest IH]; simpl.
  - intros [[= <- <-]|[]]. now left.
  - destruct (Z.eqb_spec k0 k) as [->|Hne]; simpl.
    + intros [[= <- <-]|H]; [now left|right; now right].
    + intros [H|H]; [right; now left|].
      destruct (IH H) as [Hnew|Hold]; [now left|right; now right].
Qed.

Lemma dict_set_keys (d : list (Z * V)) k v k' :
  In k' (map fst (Preprocessing.dict_set Z.eqb d k v)) <->
  k' = k \/ In k' (map fst d).
Proof.
  induction d as [|[k0 v0] rest IH]; simpl.
  - intuition.
  - destruct (Z.eqb_spec k0 k) as [->|Hne]; simpl.
    + intuition.
    + rewrite IH. intuition.
Qed.

Lemma dict_set_NoDup (d : list (Z * V)) k v :
  NoDup (map fst d) -> NoDup (map fst (Preprocessing.dict_set Z.eqb d k v)).
Proof.
  induction d as [|[k0 v0] rest IH]; simpl; intros Hnd.
  - constructor; [intros []|constructor].
  - inversion Hnd as [|? ? Hnotin Hrest]; subst.
    destruct (Z.eqb_spec k0 k) as [->|Hne]; simpl.
    + now constructor.
    + constructor; [|now apply IH].
      rewrite dict_set_keys. intros [->|Hin]; [now apply Hne|now apply Hnotin].
Qed.

(** Insert, then look up. *)
Lemma dict_get_set_same (d : list (Z * V)) k v :
  dict_get Z.eqb (Preprocessing.dict_set Z.eqb d k v) k = Ok v.
Proof.
  induction d as [|[k0 v0] rest IH]; simpl.
  - now rewrite Z.eqb_refl.
  - destruct (Z.eqb_spec k0 k) as [->|Hne]; simpl.
    + now rewrite Z.eqb_refl.
    + destruct (Z.eqb_spec k0 k); [contradiction|exact IH].
Qed.

Lemma dict_get_set_other (d : list (Z * V)) k v k' :
  k' <> k ->
  dict_get Z.eqb (Preprocessing.dict_set Z.eqb d k v) k' = dict_get Z.eqb d k'.
Proof.
  intros Hne. induction d as [|[k0 v0] rest IH]; simpl.
  - destruct (Z.eqb_spec k k'); [congruence|reflexivity].
  - destruct (Z.eqb_spec k0 k) as [->|Hne0]; simpl.
    + destruct (Z.eqb_spec k k'); [congruence|reflexivity].
    + destruct (Z.eqb_spec k0 k'); [reflexivity|exact IH].
Qed.

Lemma dict_get_In (d : list (Z * V)) k v :
  dict_get Z.eqb d k = Ok v -> In (k, v) d.
Proof.
  induction d as [|[k0 v0] rest IH]; simpl; [discriminate|].
  destruct (Z.eqb_spec k0 k) as [->|Hne].
  - intros [= <-]. now left.
  - intros H. right. now apply IH.
Qed.
End Dictionary.

Section IdToWord.
Variable norm : list float -> float.
Variable reduced_norm : list (list float).

Lemma id_to_word_loop (todo : list (string * Z)) : forall d seen d',
  dictionary_ok norm reduced_norm d seen ->
  Preprocessing.fold_result
    (fun d '(key, value) =>
       result_bind (getitem reduced_norm value) (fun row =>
       if Preprocessing.positive (norm row)
       then Ok (Preprocessing.dict_set Z.eqb d value key) else Ok d))
    todo d = Ok d' ->
  dictionary_ok norm reduced_norm d' (seen ++ todo).
Proof.
  induction todo as [|[key value] rest IH]; intros d seen d' Hok; simpl.
  - intros [= <-]. now rewrite app_nil_r.
  - destruct (getitem reduced_norm value) as [row|e] eqn:Hrow; [|discriminate].
    cbn [result_bind].
    replace (seen ++ (key, value) :: rest)
      with ((seen ++ [(key, value)]) ++ rest) by now rewrite <- app_assoc.
    destruct Hok as [Hnd [Hentries Hseen]].
    destruct (Preprocessing.positive (norm row)) eqn:Hpos;
      cbn [result_bind]; apply IH; (split; [|split]).
    + now apply dict_set_NoDup.
    + intros id word Hin. apply dict_set_entries in Hin as [[-> ->]|Hin].
      * split; [apply in_or_app; right; now left|]. now exists row.
      * destruct (Hentries id word Hin) as [Hs Hr].
        split; [apply in_or_app; now left|exact Hr].
    + intros word id Hin. apply in_app_or in Hin as [Hin|[[= <- <-]|[]]].
      * destruct (Hseen word id Hin) as [row' [Hr Hget]].
        exists row'. split; [exact Hr|]. intros Hp.
        destruct (Z.eq_dec id value) as [->|Hne].
        -- exists key. apply dict_get_set_same.
        -- rewrite dict_get_set_other by exact Hne. now apply Hget.
      * exists row. split; [exact Hrow|]. intros _.
        exists key. apply dict_get_set_same.
    + exact Hnd.
    + intros id word Hin. destruct (Hentries id word Hin) as [Hs Hr].
      split; [apply in_or_app; now left|exact Hr].
    + intros word id Hin. apply in_app_or in Hin as [Hin|[[= <- <-]|[]]].
      * exact (Hseen word id Hin).
      * exists row. split; [exact Hrow|]. congruence.
Qed.

Lemma id_to_word_ok vocab d :
  Preprocessing.id_to_word norm reduced_norm vocab = Ok d ->
  dictionary_ok norm reduced_norm d vocab.
Proof.
  intros H. apply (id_to_word_loop vocab [] [] d); [|exact H].
  split; [constructor|]. split; [intros ? ? []|intros ? ? []].
Qed.

(** X12. The dictionary [id_to_word], when it is built: no id is a key
    twice; every entry maps an id of [vocab] whose normalised embedding is
    not zero (its norm is positive) to a word that [vocab] gives that id;
    every such id of [vocab] can be looked up; and looking up an id whose
    normalised embedding is zero (its norm is not positive) is a
    [KeyError]. *)
Theorem id_to_word_keeps_the_nonzero_ids vocab d :
  Preprocessing.id_to_word norm reduced_norm vocab = Ok d ->
  NoDup (map fst d) /\
  (forall id word, dict_get Z.eqb d id = Ok word ->
     In (word, id) vocab /\
     exists row, getitem reduced_norm id = Ok row /\
                 Preprocessing.positive (norm row) = true) /\
  (forall word id, In (word, id) vocab ->
     exists row,
       getitem reduced_norm id = Ok row /\
       (Preprocessing.positive (norm row) = true ->
        exists word', dict_get Z.eqb d id = Ok word') /\
       (Preprocessing.positive (norm row) = false ->
        dict_get Z.eqb d id = Raise KeyError)).
Proof.
  intros H. destruct (id_to_word_ok vocab d H) as [Hnd [Hentries Hseen]].
  split; [exact Hnd|]. split.
  - intros id word Hget. apply dict_get_In in Hget.
    destruct (Hentries id word Hget) as [Hin [row [Hrow Hpos]]].
    split; [exact Hin|]. now exists row.
  - intros word id Hin. destruct (Hseen word id Hin) as [row [Hrow Hget]].
    exists row. split; [exact Hrow|]. split; [exact Hget|].
    intros Hzero.
    destruct (dict_get Z.eqb d id) as [word'|e] eqn:Hlook.
    + apply dict_get_In in Hlook.
      destruct (Hentries id word' Hlook) as [_ [row' [Hrow' Hpos]]].
      rewrite Hrow in Hrow'. injection Hrow' as <-. congruence.
    + now rewrite (dict_get_raises _ _ _ _ Hlook).
Qed.
End IdToWord.

Lemma length_embeddings_reduced_norm (config : Config)
  (pca_fit_transform : nat -> list (list float) -> result (list (list float)))
  (norm_axis1 : list float -> float) embeddings reduced_norm :
  Preprocessing.embeddings_reduced_norm config pca_fit_transform norm_axis1
    embeddings = Ok reduced_norm ->
  length reduced_norm = length embeddings.
Proof.
  unfold Preprocessing.embeddings_reduced_norm.
  destruct (Preprocessing.embeddings_reduced _ _ _ _) as [reduced|e];
    [|discriminate].
  cbn [result_bind]. intros H.
  destruct (assign_masked_length _ _ _ _ _ H) as [_ Hlen].
  unfold Preprocessing.norms_positive in Hlen. now rewrite length_map in Hlen.
Qed.

Lemma missing_word_drawn (config : Config) (randint : Z -> Z -> nat -> list Z)
  (sentences : list (list Z)) mw :
  (forall low high n, low < high ->
     length (randint low high n) = n /\
     Forall (fun x => low <= x < high) (randint low high n)) ->
  Preprocessing.missing_word config randint sentences = Ok mw ->
  length mw = length sentences /\
  Forall (fun m => 0 <= m < Z.of_nat (Preprocessing.num_words config)) mw.
Proof.
  intros Hrand. unfold Preprocessing.missing_word.
  destruct (Nat.eqb_spec (length sentences) 0) as [Hnone|Hsome].
  - intros [= <-]. rewrite Hnone. split; [reflexivity|constructor].
  - destruct (0 <? Z.of_nat (Preprocessing.num_words config)) eqn:Hwords;
      [|discriminate].
    apply Z.ltb_lt in Hwords. intros [= <-]. now apply Hrand.
Qed.

(** X13. The globals that the preprocessing cell leaves behind are
    aligned (NumPy's [randint] taken with its contract): one truncated
    sentence (the first [max_length] ids), one missing-word position below
    [num_words] and one index row per sentence, the index row of a sentence
    being the one marked at that sentence's missing word; one normalised
    row per embedding; and [word_indices] lists the keys of [id_to_word],
    each once. *)
Theorem preprocessing_globals_are_aligned (config : Config)
  (pca_fit_transform : nat -> list (list float) -> result (list (list float)))
  (norm_axis1 norm : list float -> float)
  (randint : Z -> Z -> nat -> list Z)
  (embeddings : list (list float)) (sentences : list (list Z))
  (vocabulary : list (string * Z)) (g : Globals float) :
  (forall low high n, low < high ->
     length (randint low high n) = n /\
     Forall (fun x => low <= x < high) (randint low high n)) ->
  Preprocessing.preprocessing_cell config pca_fit_transform norm_axis1 norm
    randint embeddings sentences vocabulary = Ok g ->
  sentences_truncated g
  = map (firstn (Preprocessing.max_length config)) sentences /\
  length (missing_word g) = length sentences /\
  Forall (fun m => 0 <= m < Z.of_nat (Preprocessing.num_words config))
         (missing_word g) /\
  all_indices g
  = map (marked_row (Preprocessing.max_length config)) (missing_word g) /\
  length (embeddings_reduced_norm g) = length embeddings /\
  vocab g = vocabulary /\
  word_indices g = map fst (id_to_word g) /\
  NoDup (word_indices g).
Proof.
  intros Hrand. unfold Preprocessing.preprocessing_cell.
  destruct (Preprocessing.missing_word config randint sentences)
    as [mw|e] eqn:Hmw; [|discriminate].
  destruct (missing_word_drawn _ _ _ _ Hrand Hmw) as [Hlen Hok].
  cbn [result_bind].
  destruct (Preprocessing.embeddings_reduced_norm config pca_fit_transform
              norm_axis1 embeddings) as [ern|e] eqn:Hern; [|discriminate].
  cbn [result_bind].
  assert (Hai : Preprocessing.all_indices config sentences mw
                = Ok (map (marked_row (Preprocessing.max_length config)) mw)).
  { unfold Preprocessing.all_indices, range. rewrite <- Hlen.
    exact (mark_loop (Preprocessing.max_length config) mw [] [] eq_refl Hok). }
  rewrite Hai. cbn [result_bind].
  destruct (Preprocessing.id_to_word norm ern vocabulary) as [itw|e] eqn:Hitw;
    [|discriminate].
  cbn [result_bind]. intros [= <-]. cbn.
  repeat split; auto.
  - now apply length_embeddings_reduced_norm in Hern.
  - now destruct (id_to_word_ok norm ern vocabulary itw Hitw) as [Hnd _].
Qed.

(** ** The cell that prints sentence 10 *)

Lemma map_result_firstn {A B} (f : A -> result B) n : forall l ys,
  map_result f l = Ok ys -> map_result f (firstn n l) = Ok (firstn n ys).
Proof.
  induction n as [|n IH]; intros l ys H; [reflexivity|].
  destruct l as [|x rest]; simpl in *.
  - now injection H as <-.
  - destruct (f x) as [y|e]; [|discriminate]. simpl in *.
    destruct (map_result f rest) as [ys'|e] eqn:Hrest; [|discriminate].
    simpl in H. injection H as <-. now rewrite (IH rest ys' Hrest).
Qed.

(** X14. The cell that prints sentence 10, on globals whose truncated
    sentences are the first [n] ids of each sentence: with fewer than
    eleven sentences it raises [IndexError]; a word id that is no key of
    [id_to_word] makes it raise [KeyError]; it raises nothing else; and
    when it returns, the truncated line is the first [n] words of the
    original line. *)
Theorem show_cell_prints_a_prefix {Scalar : Type} (g : Globals Scalar)
  (sentences : list (list Z)) (n : nat) :
  sentences_truncated g = map (firstn n) sentences ->
  ((length sentences <= 10)%nat -> show_cell g sentences = Raise IndexError) /\
  (forall s id, nth_error sentences 10 = Some s -> In id s ->
     ~ In id (map fst (id_to_word g)) ->
     show_cell g sentences = Raise KeyError) /\
  (forall e, show_cell g sentences = Raise e -> e = IndexError \/ e = KeyError) /\
  (forall original truncated,
     show_cell g sentences = Ok (original, truncated) ->
     truncated = firstn n original).
Proof.
  intros Htrunc. unfold show_cell, words_of. rewrite Htrunc.
  change 10 with (Z.of_nat 10). rewrite !getitem_of_nat, nth_error_map.
  split; [|split; [|split]].
  - intros Hshort.
    replace (nth_error sentences 10) with (@None (list Z))
      by (symmetry; apply nth_error_None; lia).
    reflexivity.
  - intros s id Hs Hin Hkey. rewrite Hs. cbn [result_bind option_map].
    destruct (map_result (dict_get Z.eqb (id_to_word g)) s) as [ws|e] eqn:Hwords.
    + exfalso.
      apply In_nth_error in Hin as [k Hk].
      assert (Hlen : length ws = length s)
        by now apply length_map_result in Hwords.
      destruct (nth_error ws k) as [word|] eqn:Hword.
      * destruct (map_result_nth _ _ _ _ _ Hwords Hword) as [id' [Hid Hget]].
        rewrite Hk in Hid. injection Hid as <-.
        apply dict_get_In in Hget. apply Hkey.
        apply in_map_iff. now exists (id, word).
      * apply nth_error_None in Hword.
        assert (k < length s)%nat by (apply nth_error_Some; congruence). lia.
    + cbn [result_bind].
      apply map_result_raises with (e0 := KeyError) in Hwords; [now subst|].
      intros x e'. apply dict_get_raises.
  - intros e. destruct (nth_error sentences 10) as [s|]; cbn [result_bind option_map].
    + destruct (map_result (dict_get Z.eqb (id_to_word g)) s) as [ws|e1] eqn:Hwords; cbn [result_bind].
      * rewrite (map_result_firstn _ n s ws Hwords). cbn [result_bind].
        discriminate.
      * intros [= <-]. right.
        apply map_result_raises with (e0 := KeyError) in Hwords; [exact Hwords|].
        intros x e'. apply dict_get_raises.
    + intros [= <-]. now left.
  - intros original truncated.
    destruct (nth_error sentences 10) as [s|]; cbn [result_bind option_map];
      [|discriminate].
    destruct (map_result (dict_get Z.eqb (id_to_word g)) s) as [ws|e1] eqn:Hwords; cbn [result_bind];
      [|discriminate].
    rewrite (map_result_firstn _ n s ws Hwords). cbn [result_bind].
    now intros [= <- <-].
Qed.

(** ** Sentences without a missing-word position *)

Lemma for_each_returns_each {W A B} (body : B -> A -> M W B) l :
  forall acc w w' r,
    for_each body l acc w = (w', Ok r) ->
    forall x, In x l -> exists acc0 w0 w1 r1, body acc0 x w0 = (w1, Ok r1).
Proof.
  induction l as [|y rest IH]; intros acc w w' r Hrun x Hin; [contradiction|].
  simpl in Hrun. unfold bind in Hrun.
  destruct (body acc y w) as [w1 [acc1|e]] eqn:Hy; [|discriminate].
  destruct Hin as [->|Hin].
  - now exists acc, w, w1, acc1.
  - exact (IH acc1 w1 w' r Hrun x Hin).
Qed.

Lemma in_combine_seq_nth {A} (l : list A) : forall s i x,
  nth_error l i = Some x -> In ((s + i)%nat, x) (combine (seq s (length l)) l).
Proof.
  induction l as [|y rest IH]; intros s i x Hx; [now destruct i|].
  destruct i as [|i]; simpl in *.
  - injection Hx as <-. left. f_equal. lia.
  - right. replace (s + S i)%nat with (S s + i)%nat by lia. now apply IH.
Qed.

Lemma in_enumerate_nth {A} (l : list A) i x :
  nth_error l i = Some x -> In (i, x) (enumerate l).
Proof. intros Hx. exact (in_combine_seq_nth l 0 i x Hx). Qed.

(** X15. [cost] needs a missing-word position and an index row for
    every sentence: when [missing_words] or [all_indices] has fewer entries
    than there are sentences, [cost] never returns a value (the look-up for
    the first sentence without one raises [IndexError], unless an earlier
    sentence has raised already). *)
Theorem cost_needs_a_position_per_sentence
  {Scalar OptState Grad : Type} (config : Config) (utils : Utils Scalar)
  (lib : Library Scalar OptState Grad) (g : Globals Scalar)
  parameters sentences missing_words (w : World Scalar OptState) :
  (length missing_words < length sentences)%nat \/
  (length (all_indices g) < length sentences)%nat ->
  forall value,
    snd (Copy1.cost config utils lib g parameters sentences missing_words w)
    <> Ok value.
Proof.
  intros Hshort value Hret.
  destruct (Copy1.cost config utils lib g parameters sentences missing_words w)
    as [w' r] eqn:Hcost.
  simpl in Hret. subst r. unfold Copy1.cost in Hcost.
  set (k := Nat.min (length missing_words) (length (all_indices g))).
  destruct (nth_error sentences k) as [s|] eqn:Hs;
    [|apply nth_error_None in Hs; unfold k in Hs; lia].
  destruct (for_each_returns_each _ _ _ _ _ _ Hcost (k, s)
              (in_enumerate_nth _ _ _ Hs)) as [acc0 [w0 [w1 [r1 Hbody]]]].
  cbv beta iota in Hbody. unfold bind, lift in Hbody.
  destruct (take (embeddings_reduced_norm g) s); [|discriminate].
  rewrite !getitem_of_nat in Hbody.
  destruct (nth_error (all_indices g) k) as [row|] eqn:Hrow.
  - destruct (nth_error missing_words k) as [m|] eqn:Hm; [|discriminate].
    assert (k < length missing_words)%nat by (apply nth_error_Some; congruence).
    assert (k < length (all_indices g))%nat by (apply nth_error_Some; congruence).
    unfold k in *. lia.
  - discriminate.
Qed.

(** ** The properties above on the small notebooks *)

Lemma query_returns_one_probability_per_candidate_witness :
  exists cs tapes,
    candidates Demo.globals1 (Some (IxSlice None None)) = Ok cs /\
    length [2; 2] = length cs /\
    fst (Copy1.get_most_probable_word Demo.config1 Demo.utils Demo.lib
           Demo.globals1 [] 0 (Some (IxSlice None None)) Demo2.trained_world)
    = with_tapes Demo2.trained_world tapes /\
    length tapes = length cs.
Proof.
  apply (query_returns_one_probability_per_candidate Demo.config1 Demo.utils
           Demo.lib Demo.globals1 [] 0 (Some (IxSlice None None))
           Demo2.trained_world _ [2; 2]).
  reflexivity.
Defined.

Lemma cost_batch_reads_leading_index_rows_witness :
  Copy1.cost_batch Demo.config Demo.utils Demo.lib Demo2.short_globals [0; 1]
    (np_random_rand Demo.lib 1 2 1) Demo.world =
  Copy1.cost_batch Demo.config Demo.utils Demo.lib Demo2.other_rows [0; 1]
    (np_random_rand Demo.lib 1 2 1) Demo.world.
Proof.
  apply (cost_batch_reads_leading_index_rows Demo.config Demo.utils Demo.lib
           Demo2.short_globals Demo2.other_rows [0; 1]
           (np_random_rand Demo.lib 1 2 1) Demo.world).
  - reflexivity.
  - reflexivity.
  - reflexivity.
  - reflexivity.
Defined.

Lemma batch_lookups_stay_in_bounds_witness :
  length (Copy1.batch_of 1) = 10%nat /\
  take (sentences_truncated Demo.globals) (Copy1.batch_of 1)
  = Ok (firstn 10 (skipn (10 * 1) (sentences_truncated Demo.globals))) /\
  length (firstn 10 (skipn (10 * 1) (sentences_truncated Demo.globals))) = 10%nat /\
  (length (missing_word Demo.globals) = length (sentences_truncated Demo.globals) ->
   take (missing_word Demo.globals) (Copy1.batch_of 1)
   = Ok (firstn 10 (skipn (10 * 1) (missing_word Demo.globals)))).
Proof.
  apply (batch_lookups_stay_in_bounds Demo.globals 1%nat).
  vm_compute. lia.
Defined.

Lemma batches_cover_each_sentence_once_witness :
  exists i,
    (i < Copy1.N_batches Demo.globals)%nat /\
    In 15 (Copy1.batch_of i) /\
    forall i', In 15 (Copy1.batch_of i') -> i' = i.
Proof.
  apply (batches_cover_each_sentence_once Demo.globals 15).
  vm_compute. split; [discriminate|reflexivity].
Defined.

Lemma training_without_a_full_batch_witness :
  Copy1.training_cell Demo.config Demo.utils Demo.lib Demo2.short_globals
    Demo.world
  = ({| parameters := Some (np_random_rand Demo.lib 1 2 1);
        opt := tt;
        executed := [];
        completed := [] |}, Ok tt).
Proof.
  apply (training_without_a_full_batch Demo.config Demo.utils Demo.lib
           Demo2.short_globals Demo.world).
  simpl. lia.
Defined.

Lemma query_indices_skip_the_position_witness :
  (forall i, In i (query_indices 7 4) <-> 0 <= i <= Z.of_nat 7 /\ i <> 4) /\
  (0 <= 4 ->
   query_indices 7 4
   = map Z.of_nat (seq 0 (Z.to_nat 4))
     ++ map Z.of_nat (seq (S (Z.to_nat 4)) (8 - S (Z.to_nat 4))) /\
   length (query_indices 7 4) = 7%nat) /\
  (4 < 0 ->
   query_indices 7 4 = map Z.of_nat (range 8) /\
   length (query_indices 7 4) = 8%nat).
Proof.
  apply (query_indices_skip_the_position 7%nat 4).
  simpl. lia.
Defined.

Lemma reduced_rows_are_the_pca_rows_witness :
  let mask := Preprocessing.norms_positive Demo.norm64 Demo.embeddings in
  exists X,
    Demo.pca_identity (Preprocessing.n_dim Demo.config)
                      (Preprocessing.select mask Demo.embeddings) = Ok X /\
    Preprocessing.select mask Demo.embeddings = X /\
    length X = count_selected mask /\
    Forall (fun row => length row = Preprocessing.n_dim Demo.config) X /\
    forall i, nth_error mask i = Some false ->
              nth_error Demo.embeddings i
              = Some (repeat 0%float (Preprocessing.n_dim Demo.config)).
Proof.
  apply (reduced_rows_are_the_pca_rows Demo.config Demo.pca_identity
           Demo.norm64 Demo.embeddings Demo.embeddings).
  reflexivity.
Defined.

Lemma id_to_word_keeps_the_nonzero_ids_witness :
  NoDup (map fst [(0, "earth"%string)]) /\
  (forall id word, dict_get Z.eqb [(0, "earth"%string)] id = Ok word ->
     In (word, id) Demo2.vocabulary /\
     exists row, getitem Demo.normalised id = Ok row /\
                 Preprocessing.positive (Demo.norm64 row) = true) /\
  (forall word id, In (word, id) Demo2.vocabulary ->
     exists row,
       getitem Demo.normalised id = Ok row /\
       (Preprocessing.positive (Demo.norm64 row) = true ->
        exists word', dict_get Z.eqb [(0, "earth"%string)] id = Ok word') /\
       (Preprocessing.positive (Demo.norm64 row) = false ->
        dict_get Z.eqb [(0, "earth"%string)] id = Raise KeyError)).
Proof.
  apply (id_to_word_keeps_the_nonzero_ids Demo.norm64 Demo.normalised
           Demo2.vocabulary [(0, "earth"%string)]).
  reflexivity.
Defined.

Lemma preprocessing_globals_are_aligned_witness :
  sentences_truncated Demo2.preprocessed
  = map (firstn (Preprocessing.max_length Demo.config)) Demo2.sentences /\
  length (missing_word Demo2.preprocessed) = length Demo2.sentences /\
  Forall (fun m => 0 <= m < Z.of_nat (Preprocessing.num_words Demo.config))
         (missing_word Demo2.preprocessed) /\
  all_indices Demo2.preprocessed
  = map (marked_row (Preprocessing.max_length Demo.config))
        (missing_word Demo2.preprocessed) /\
  length (embeddings_reduced_norm Demo2.preprocessed) = length Demo.embeddings /\
  vocab Demo2.preprocessed = Demo2.vocabulary /\
  word_indices Demo2.preprocessed = map fst (id_to_word Demo2.preprocessed) /\
  NoDup (word_indices Demo2.preprocessed).
Proof.
  apply (preprocessing_globals_are_aligned Demo.config Demo.pca_identity
           Demo.norm64 Demo.norm64 Demo.randint_low Demo.embeddings
           Demo2.sentences Demo2.vocabulary Demo2.preprocessed).
  - exact Demo_randint_low_contract.
  - reflexivity.
Defined.

Lemma show_cell_prints_a_prefix_witness :
  ((length Demo2.eleven_sentences <= 10)%nat ->
   show_cell Demo2.eleven_globals Demo2.eleven_sentences = Raise IndexError) /\
  (forall s id, nth_error Demo2.eleven_sentences 10 = Some s -> In id s ->
     ~ In id (map fst (id_to_word Demo2.eleven_globals)) ->
     show_cell Demo2.eleven_globals Demo2.eleven_sentences = Raise KeyError) /\
  (forall e, show_cell Demo2.eleven_globals Demo2.eleven_sentences = Raise e ->
     e = IndexError \/ e = KeyError) /\
  (forall original truncated,
     show_cell Demo2.eleven_globals Demo2.eleven_sentences
     = Ok (original, truncated) ->
     truncated = firstn 2 original).
Proof.
  apply (show_cell_prints_a_prefix Demo2.eleven_globals Demo2.eleven_sentences
           2%nat).
  reflexivity.
Defined.

Lemma cost_needs_a_position_per_sentence_witness :
  snd (Copy1.cost Demo.config1 Demo.utils Demo.lib Demo.globals1
         (np_random_rand Demo.lib 1 2 1) [[0]; [1]] [0] Demo.world)
  <> Ok 4.
Proof.
  apply (cost_needs_a_position_per_sentence Demo.config1 Demo.utils Demo.lib
           Demo.globals1 (np_random_rand Demo.lib 1 2 1) [[0]; [1]] [0]
           Demo.world).
  left. simpl. lia.
Defined.
